(** * The task-planning agent: planner, web-search sub-task controller and
      their state reducers

    A shallow embedding of

    - [src/state/state.py]             (the task list and its reducer),
    - [src/agents/websearch/state.py]  (search results and their reducer),
    - [src/agents/websearch/nodes.py]  (the four nodes of a sub-task),
    - [src/agents/planner/nodes.py]    (planning and synthesis).

    Python text is a list of Unicode code points, a Python [int] is a [Z],
    a dict with a fixed set of keys is a record whose optional keys are
    [option] fields.  A node is a function from its state and from the
    replies of its collaborators (language model, search provider, page
    loader) to a log and an outcome: the [Command] it returns or the
    exception it raises. *)

From Stdlib Require Import ZArith NArith Ascii String DecimalString DecimalNat Lia.
From stdpp Require Import base option list gmap sets.

Local Open Scope Z_scope.

(** ** Python text *)

(** A character is a code point; [len], slicing and [strip] count code
    points, so a [str] is a list of them. *)
Abbreviation char := N (only parsing).
Abbreviation str := (list N) (only parsing).

(** Source literals are written as Rocq strings, which hold the UTF-8
    bytes of the text; [lit] decodes them into code points. *)
Fixpoint utf8_decode (bs : list N) : str :=
  match bs with
  | [] => []
  | b0 :: r0 =>
    if (b0 <? 128)%N then b0 :: utf8_decode r0
    else match r0 with
    | [] => [b0]
    | b1 :: r1 =>
      if (b0 <? 224)%N then ((b0 mod 32) * 64 + b1 mod 64)%N :: utf8_decode r1
      else match r1 with
      | [] => [b0; b1]
      | b2 :: r2 =>
        if (b0 <? 240)%N
        then ((b0 mod 16) * 4096 + (b1 mod 64) * 64 + b2 mod 64)%N
               :: utf8_decode r2
        else match r2 with
        | [] => [b0; b1; b2]
        | b3 :: r3 =>
          ((b0 mod 8) * 262144 + (b1 mod 64) * 4096
           + (b2 mod 64) * 64 + b3 mod 64)%N :: utf8_decode r3
        end
      end
    end
  end.

Definition lit (s : string) : str :=
  utf8_decode (N_of_ascii <$> list_ascii_of_string s).
Arguments lit s%_string.

(** ["\n"] *)
Definition nl : str := [10%N].

(** [sep.join(parts)] *)
Fixpoint join (sep : str) (parts : list str) : str :=
  match parts with
  | [] => []
  | [p] => p
  | p :: rest => p ++ sep ++ join sep rest
  end.

(** [str(n)] for a non-negative [int]: its decimal digits. *)
Definition str_of_nat (n : nat) : str :=
  N_of_ascii <$> list_ascii_of_string (NilEmpty.string_of_uint (Nat.to_uint n)).

(** Python truthiness of a list or text that may be [None]. *)
Definition truthy {A} (l : option (list A)) : bool :=
  match l with
  | Some (_ :: _) => true
  | _ => false
  end.

(** ** Exceptions and logging *)

(** Only [Exception] subclasses occur: the class name and [str(e)]. *)
Record exn := Exn { exn_class : str; exn_str : str }.

(** What a bare [raise] outside of a handler raises. *)
Definition no_active_exception : exn :=
  Exn (lit "RuntimeError") (lit "No active exception to reraise").
(** [d[key]] on a dict without [key]. *)
Definition KeyError (key : string) : exn :=
  Exn (lit "KeyError") (lit "'" ++ lit key ++ lit "'").
Arguments KeyError key%_string.
(** [l[0]] on an empty list. *)
Definition IndexError : exn :=
  Exn (lit "IndexError") (lit "list index out of range").

Inductive outcome (A : Type) : Type :=
| Returned (a : A)
| Raised (e : exn).
Arguments Returned {A} a.
Arguments Raised {A} e.

Inductive level := WARNING | ERROR.
Record log_record := Log { log_level : level; log_text : str }.

(** A computation: what it logged, in order, and how it ended. *)
Definition py (A : Type) : Type := list log_record * outcome A.

Definition ret {A} (a : A) : py A := ([], Returned a).
Definition raise {A} (e : exn) : py A := ([], Raised e).
Definition logger (l : level) (text : str) : py unit :=
  ([Log l text], Returned tt).
(** The result of a call to a collaborator. *)
Definition call {A} (o : outcome A) : py A := ([], o).

Definition bind {A B} (m : py A) (k : A → py B) : py B :=
  match m with
  | (l, Returned a) => let '(l', o) := k a in (l ++ l', o)
  | (l, Raised e) => (l, Raised e)
  end.

(** [try: body / except Exception as e: handler(e)] *)
Definition try_except {A} (body : py A) (handler : exn → py A) : py A :=
  match body with
  | (l, Returned a) => (l, Returned a)
  | (l, Raised e) => let '(l', o) := handler e in (l ++ l', o)
  end.

Notation "'let*' x := m 'in' k" := (bind m (λ x, k))
  (at level 10, x pattern, m at level 100, k at level 200, only parsing).
Notation "m ;; k" := (bind m (λ _, k))
  (at level 100, k at level 200, right associativity, only parsing).

(** [d[key]] on a dict whose key may be absent. *)
Definition subscript {A} (key : string) (v : option A) : py A :=
  match v with
  | Some a => ret a
  | None => raise (KeyError key)
  end.
Arguments subscript {A} key%_string v.

Definition raises {A} (m : py A) : Prop := ∃ e, m.2 = Raised e.
Definition returns {A} (m : py A) (a : A) : Prop := m.2 = Returned a.

(** ** Chat messages *)

Inductive role := system | human | ai.
Record Message := mkMessage { msg_role : role; msg_content : str }.
Definition SystemMessage := mkMessage system.
Definition HumanMessage := mkMessage human.
Definition AIMessage := mkMessage ai.

(** ** [src/state/state.py] *)

Module State.

(** A task dict.  [plan_tasks] builds tasks without ["task_result"];
    [evaluate_task_result] builds them with it. *)
Record Task := mkTask {
  task_id : str;
  task_description : str;
  task_result : option str;
}.

(** The reducer of the [tasks] key; [not new] holds of the empty list. *)
Definition update_task (existing new : list Task) : list Task :=
  if bool_decide (new = []) then existing
  else
    let new_task_ids : gset str := list_to_set (task_id <$> new) in
    let updated := filter (λ task, task_id task ∉ new_task_ids) existing in
    updated ++ new.

(** The ids of a task list, in order. *)
Definition ids (l : list Task) : list str := task_id <$> l.

(** The keys of [BaseState]; [state["messages"]] raises on an absent key,
    [state.get("tasks", [])] does not. *)
Record BaseState := mkBaseState {
  bs_messages : option (list Message);
  bs_tasks : option (list Task);
  bs_final_answer : option str;
}.

(** The first task of a list that carries a given id. *)
Fixpoint task_with_id (id : str) (l : list Task) : option Task :=
  match l with
  | [] => None
  | t :: rest => if bool_decide (task_id t = id) then Some t
                 else task_with_id id rest
  end.

End State.

(** ** [src/agents/websearch/state.py] and [nodes.py] *)

Module WebSearch.
Import State.

Record SearchResult := mkSearchResult {
  query : str;
  title : str;
  url : str;
  snippet : str;
  content : option str;
}.

(** The reducer of the [search_results] key; either side may be [None]. *)
Definition merge_search_results (left right : option (list SearchResult))
  : list SearchResult :=
  match right with
  | None => if truthy left then default [] left else []
  | Some right' =>
    if negb (truthy right) then []
    else if negb (truthy left) then right'
    else default [] left ++ right'
  end.

(** The state keys of [WebSearchState] that the sub-task nodes read or
    write.  A key read with [state.get(key, default)] is an [option];
    the two lists with a reducer start out empty. *)
Record WebSearchState := mkState {
  s_tasks : list Task;
  s_task_id : option str;
  s_task_description : option str;
  s_task_result : option str;
  s_search_queries : list str;
  s_search_results : list SearchResult;
  s_feedback : option str;
  s_attempt : option Z;
  s_completed : option bool;
}.

(** The [update] dict of a [Command]: a key is present or not. *)
Record Update := mkUpdate {
  u_tasks : option (list Task);
  u_task_result : option str;
  u_search_queries : option (list str);
  u_search_results : option (list SearchResult);
  u_feedback : option (option str);
  u_attempt : option Z;
  u_completed : option bool;
}.

Inductive node :=
| n_generate_search_queries
| n_execute_search
| n_generate_task_result
| n_evaluate_task_result.

(** [Send("execute_search", {"query": query})], the one [Send] of this
    graph: the dict handed to [execute_search]. *)
Record Send := mkSend { arg_query : option str }.

Inductive goto :=
| To (n : node)
| Sends (sends : list Send)
| END.

Record Command := mkCommand { update : Update; goto_ : goto }.

(** The structured outputs asked from the model. *)
Record SearchQueries := mkSearchQueries { queries : list str; sq_reason : str }.

Inductive need_ := search | generate.
Record TaskEvaluation := mkTaskEvaluation {
  is_satisfactory : bool;
  need : option need_;
  reason : str;
  feedback : option str;
}.

(** One entry of [search.results(...)]: a dict read with
    [result['link']], [result['title']] and [result.get('snippet', '')]. *)
Record hit := mkHit {
  hit_link : option str;
  hit_title : option str;
  hit_snippet : option str;
}.

(** The collaborators of one run of a node.  Each call returns or raises.
    [system_prompt] is the fixed instruction text of a node's system
    message, the current date already formatted into it. *)
Record World := mkWorld {
  system_prompt : node → str;
  llm_queries : list Message → outcome SearchQueries;
  llm_text : list Message → outcome str;
  llm_evaluation : list Message → outcome TaskEvaluation;
  google_results : str → Z → outcome (list hit);
  load_page : str → Z → outcome (list str);
}.

(** *** [clean_text] of [execute_search] *)

(** The characters [\s] and [str.strip] take for white space. *)
Definition isspace (c : char) : bool :=
  ((9 <=? c) && (c <=? 13) || (28 <=? c) && (c <=? 32)
   || (c =? 133) || (c =? 160) || (c =? 5760)
   || (8192 <=? c) && (c <=? 8202)
   || (c =? 8232) || (c =? 8233) || (c =? 8239) || (c =? 8287)
   || (c =? 12288))%N.

Fixpoint whitespace_run (text : str) : str :=
  match text with
  | c :: rest => if isspace c then c :: whitespace_run rest else []
  | [] => []
  end.

(** How many characters of a white-space run a greedy [\s*\n+] takes:
    up to its last newline. *)
Fixpoint upto_last_newline (run : str) : option nat :=
  match run with
  | [] => None
  | c :: rest =>
    match upto_last_newline rest with
    | Some k => Some (S k)
    | None => if (c =? 10)%N then Some 1%nat else None
    end
  end.

(** [re.sub(r'\n\s*\n+', '\n\n', text)], scanning left to right; [skip]
    counts the characters of the current match still to pass over. *)
Fixpoint sub_blank_lines (skip : nat) (text : str) : str :=
  match text with
  | [] => []
  | c :: rest =>
    match skip with
    | S k => sub_blank_lines k rest
    | O =>
      if (c =? 10)%N then
        match upto_last_newline (whitespace_run rest) with
        | Some k => nl ++ nl ++ sub_blank_lines k rest
        | None => c :: sub_blank_lines 0 rest
        end
      else c :: sub_blank_lines 0 rest
    end
  end.

(** [text.split('\n')] *)
Fixpoint split_newline (text : str) : list str :=
  match text with
  | [] => [[]]
  | c :: rest =>
    if (c =? 10)%N then [] :: split_newline rest
    else match split_newline rest with
         | line :: lines => (c :: line) :: lines
         | [] => [[c]]
         end
  end.

Fixpoint lstrip (s : str) : str :=
  match s with
  | c :: rest => if isspace c then lstrip rest else s
  | [] => []
  end.

Definition strip (s : str) : str := reverse (lstrip (reverse (lstrip s))).

Definition clean_text (text : str) : str :=
  let text := sub_blank_lines 0 text in
  let lines := strip <$> split_newline text in
  let lines := filter (λ line, line ≠ []) lines in
  join nl lines.

(** *** Prompts *)

(** The block both [generate_task_result] and [evaluate_task_result]
    write for the search results, numbered from 1. *)
Definition search_result_parts (i : nat) (result : SearchResult) : list str :=
  let content_ := default (snippet result) (content result) in
  [ nl ++ lit "### 検索結果 " ++ str_of_nat i;
    nl ++ lit "**検索クエリ**: " ++ query result;
    nl ++ lit "**タイトル**: " ++ title result;
    nl ++ lit "**URL**: " ++ url result;
    nl ++ lit "**内容**:" ++ nl ++ content_ ++ nl ].

Definition search_results_parts (search_results : list SearchResult)
  : list str :=
  if truthy (Some search_results) then
    [nl ++ lit "## 取得した検索結果:"]
    ++ concat (imap (λ i result, search_result_parts (S i) result)
                    search_results)
  else [].

Definition queries_text (qs : list str) : str :=
  join nl ((λ q, lit "- " ++ q) <$> qs).

(** *** [generate_search_queries] *)

(** The text of the human message. *)
Definition queries_request (state : WebSearchState) : str :=
  let task_description := default [] (s_task_description state) in
  let previous_queries := s_search_queries state in
  let feedback := s_feedback state in
  let human_content_parts :=
    [lit "## 割り当てられたタスク:" ++ nl ++ task_description]
    ++ (if truthy (Some previous_queries) then
          [ nl ++ lit "## すでに利用した検索クエリ:" ++ nl
               ++ queries_text previous_queries;
            nl ++ lit "**重要**: 前回の検索で十分な結果が得られなかったため、異なる角度からの新しいクエリを生成してください。" ]
        else [])
    ++ (if truthy feedback then
          [ nl ++ lit "## 改善フィードバック:" ++ nl ++ default [] feedback;
            nl ++ lit "上記のフィードバックを参考にしてください。" ]
        else []) in
  concat human_content_parts.

Definition generate_search_queries (w : World) (state : WebSearchState)
  : py Command :=
  let system_message :=
    SystemMessage (system_prompt w n_generate_search_queries) in
  let human_message := HumanMessage (queries_request state) in
  try_except
    (let* search_queries_result :=
       call (llm_queries w [system_message; human_message]) in
     if negb (truthy (Some (queries search_queries_result))) then
       logger WARNING
         (lit "generate_search_queriesでクエリが生成されませんでした") ;;
       ret (mkCommand
              {| u_tasks := None;
                 u_task_result := Some (lit "適切な検索クエリを生成できませんでした。");
                 u_search_queries := None; u_search_results := None;
                 u_feedback := None; u_attempt := None;
                 u_completed := None |}
              (To n_evaluate_task_result))
     else
       let sends := mkSend ∘ Some <$> queries search_queries_result in
       ret (mkCommand
              {| u_tasks := None; u_task_result := None;
                 u_search_queries := Some (queries search_queries_result);
                 u_search_results := None; u_feedback := None;
                 u_attempt := None; u_completed := None |}
              (Sends sends)))
    (λ e,
       logger ERROR
         (lit "generate_search_queriesでエラーが発生しました: " ++ exn_str e) ;;
       raise e).

(** *** [execute_search] *)

Definition num_results : Z := 2.
(** Seconds given to [asyncio.wait_for] for one page. *)
Definition page_timeout : Z := 15.
(** The slice bound of [content[:2500]]. *)
Definition content_limit : nat := 2500.

Definition search_results_update (rs : list SearchResult) : Command :=
  mkCommand
    {| u_tasks := None; u_task_result := None; u_search_queries := None;
       u_search_results := Some rs; u_feedback := None; u_attempt := None;
       u_completed := None |}
    (To n_generate_task_result).

(** The [try] statement inside the loop: load the page and append the
    result with its content, or log and append it without. *)
Definition fetch_result (w : World) (query_ title_ url_ snippet_ : str)
    (search_results : list SearchResult) : py (list SearchResult) :=
  try_except
    (let* docs := call (load_page w url_ page_timeout) in
     let* raw_content :=
       match docs with
       | page_content :: _ => ret page_content
       | [] => raise IndexError
       end in
     let cleaned_content := clean_text raw_content in
     let content_ := cleaned_content in
     ret (search_results
          ++ [mkSearchResult query_ title_ url_ snippet_
                (Some (take content_limit content_))]))
    (λ e,
       logger WARNING
         (lit "execute_searchでWebページ取得エラー: " ++ exn_str e) ;;
       ret (search_results
            ++ [mkSearchResult query_ title_ url_ snippet_ None])).

(** [for result in results], started with the results gathered so far. *)
Fixpoint for_result_in (w : World) (query_ : str) (results : list hit)
    (search_results : list SearchResult) : py (list SearchResult) :=
  match results with
  | [] => ret search_results
  | result :: rest =>
    let* url_ := subscript "link" (hit_link result) in
    let* title_ := subscript "title" (hit_title result) in
    let snippet_ := default [] (hit_snippet result) in
    let* search_results' :=
      fetch_result w query_ title_ url_ snippet_ search_results in
    for_result_in w query_ rest search_results'
  end.

Definition execute_search (w : World) (arg : Send) : py Command :=
  let query_ := default [] (arg_query arg) in
  if negb (truthy (Some query_)) then ret (search_results_update [])
  else
    try_except
      (let* results := call (google_results w query_ num_results) in
       if negb (truthy (Some results)) then ret (search_results_update [])
       else
         let* search_results := for_result_in w query_ results [] in
         ret (search_results_update search_results))
      (λ e,
         logger ERROR
           (lit "execute_searchでエラーが発生しました: " ++ exn_str e) ;;
         ret (search_results_update [])).

(** *** [generate_task_result] *)

(** The text of the human message. *)
Definition result_request (state : WebSearchState) : str :=
  let task_description := default [] (s_task_description state) in
  let search_results := s_search_results state in
  let feedback := s_feedback state in
  let human_content_parts :=
    [lit "## 割り当てられたタスク:" ++ nl ++ task_description]
    ++ search_results_parts search_results
    ++ (if truthy feedback then
          let previous_result := default [] (s_task_result state) in
          [nl ++ lit "## 改善フィードバック:" ++ nl ++ default [] feedback]
          ++ (if truthy (Some previous_result) then
                [nl ++ lit "## 以前のタスク結果:" ++ nl ++ previous_result]
              else [])
          ++ [nl ++ lit "**重要**: 上記のフィードバックを参考にして、より良いタスク結果を作成してください。"]
        else []) in
  concat human_content_parts.

Definition generate_task_result (w : World) (state : WebSearchState)
  : py Command :=
  let system_message :=
    SystemMessage (system_prompt w n_generate_task_result) in
  let human_message := HumanMessage (result_request state) in
  try_except
    (let* answer := call (llm_text w [system_message; human_message]) in
     ret (mkCommand
            {| u_tasks := None; u_task_result := Some answer;
               u_search_queries := None; u_search_results := None;
               u_feedback := None; u_attempt := None; u_completed := None |}
            (To n_evaluate_task_result)))
    (λ e,
       logger ERROR
         (lit "generate_task_resultでエラーが発生しました: " ++ exn_str e) ;;
       raise e).

(** *** [evaluate_task_result] *)

(** The text of the human message. *)
Definition evaluation_request (state : WebSearchState) : str :=
  let task_description := default [] (s_task_description state) in
  let task_result := default [] (s_task_result state) in
  let search_queries := s_search_queries state in
  let search_results := s_search_results state in
  let human_content_parts :=
    [lit "## 割り当てられたタスク:" ++ nl ++ task_description]
    ++ (if truthy (Some search_queries) then
          [nl ++ lit "## 実行した検索クエリ:" ++ nl
              ++ queries_text search_queries]
        else [])
    ++ search_results_parts search_results
    ++ [nl ++ lit "## 生成されたタスク結果:" ++ nl ++ task_result] in
  concat human_content_parts.

Definition evaluate_task_result (w : World) (state : WebSearchState)
  : py Command :=
  let task_description := default [] (s_task_description state) in
  let task_result := default [] (s_task_result state) in
  let attempt := default 0 (s_attempt state) in
  let attempt := attempt + 1 in
  let system_message :=
    SystemMessage (system_prompt w n_evaluate_task_result) in
  let human_message := HumanMessage (evaluation_request state) in
  try_except
    (let* evaluation :=
       call (llm_evaluation w [system_message; human_message]) in
     if is_satisfactory evaluation || (2 <=? attempt) then
       let task_id := default [] (s_task_id state) in
       ret (mkCommand
              {| u_tasks := Some [mkTask task_id task_description (Some task_result)];
                 u_task_result := None; u_search_queries := None;
                 u_search_results := None; u_feedback := None;
                 u_attempt := Some attempt; u_completed := Some true |}
              END)
     else
       match need evaluation with
       | Some search =>
         ret (mkCommand
                {| u_tasks := None; u_task_result := None;
                   u_search_queries := None; u_search_results := Some [];
                   u_feedback := Some (feedback evaluation);
                   u_attempt := Some attempt; u_completed := None |}
                (To n_generate_search_queries))
       | Some generate =>
         ret (mkCommand
                {| u_tasks := None; u_task_result := None;
                   u_search_queries := None; u_search_results := None;
                   u_feedback := Some (feedback evaluation);
                   u_attempt := Some attempt; u_completed := None |}
                (To n_generate_task_result))
       | None =>
         logger WARNING
           (lit "evaluate_task_result: is_satisfactory=False but need=None. Completing task anyway.") ;;
         let task_id := default [] (s_task_id state) in
         ret (mkCommand
                {| u_tasks := Some [mkTask task_id task_description (Some task_result)];
                   u_task_result := None; u_search_queries := None;
                   u_search_results := None; u_feedback := None;
                   u_attempt := Some attempt; u_completed := Some true |}
                END)
       end)
    (λ e,
       logger ERROR
         (lit "evaluate_task_resultでエラーが発生しました: " ++ exn_str e) ;;
       raise e).

(** *** The sub-task graph ([graph.py]) and its execution *)

(** How the engine folds a [Command]'s update into the state: a key with
    a declared reducer ([tasks], [search_queries], [search_results])
    goes through it, any other key is overwritten, an absent key leaves
    its channel alone. *)
Definition apply_update (state : WebSearchState) (u : Update)
  : WebSearchState :=
  {| s_tasks :=
       from_option (update_task (s_tasks state)) (s_tasks state) (u_tasks u);
     s_task_id := s_task_id state;
     s_task_description := s_task_description state;
     s_task_result :=
       from_option Some (s_task_result state) (u_task_result u);
     s_search_queries :=
       from_option (app (s_search_queries state)) (s_search_queries state)
                   (u_search_queries u);
     s_search_results :=
       from_option
         (λ right,
            merge_search_results (Some (s_search_results state)) (Some right))
         (s_search_results state) (u_search_results u);
     s_feedback := default (s_feedback state) (u_feedback u);
     s_attempt := from_option Some (s_attempt state) (u_attempt u);
     s_completed := from_option Some (s_completed state) (u_completed u) |}.

(** What runs in one step: a node on the shared state, or
    [execute_search] on the dict of a [Send]. *)
Inductive task :=
| Run (n : node)
| Push (s : Send).

(** [execute_search] reads only the ["query"] key of what it is given;
    the state has no such key. *)
Definition run_task (w : World) (state : WebSearchState) (t : task)
  : py Command :=
  match t with
  | Run n_generate_search_queries => generate_search_queries w state
  | Run n_generate_task_result => generate_task_result w state
  | Run n_evaluate_task_result => evaluate_task_result w state
  | Run n_execute_search => execute_search w (mkSend None)
  | Push arg => execute_search w arg
  end.

(** The tasks of one step all read the state the step started with. *)
Fixpoint run_tasks (w : World) (state : WebSearchState) (ts : list task)
  : py (list Command) :=
  match ts with
  | [] => ret []
  | t :: rest =>
    let* c := run_task w state t in
    let* cs := run_tasks w state rest in
    ret (c :: cs)
  end.

#[global] Instance node_eq_dec : EqDecision node.
Proof. solve_decision. Defined.

Definition goto_nodes (g : goto) : list node :=
  match g with To n => [n] | _ => [] end.
Definition goto_sends (g : goto) : list Send :=
  match g with Sends l => l | _ => [] end.

(** Every [Send] starts a task of its own; a node named by several
    commands runs once. *)
Definition next_tasks (cmds : list Command) : list task :=
  (Push <$> concat (goto_sends ∘ goto_ <$> cmds))
  ++ (Run <$> remove_dups (concat (goto_nodes ∘ goto_ <$> cmds))).

(** One step: run the tasks, fold their updates into the state in task
    order, and collect where they go. *)
Definition superstep (w : World) (state : WebSearchState) (ts : list task)
  : py (WebSearchState * list task) :=
  let* cmds := run_tasks w state ts in
  ret (foldl apply_update state (update <$> cmds), next_tasks cmds).

(** [add_edge(START, "generate_search_queries")] *)
Definition start : list task := [Run n_generate_search_queries].

(** The run of a sub-task: steps until no task is left ([Some] the final
    state) or the fuel is used up ([None]).  The collaborators may answer
    differently at every step: [w k] are those of step [k]. *)
Fixpoint run (fuel : nat) (w : nat → World) (k : nat)
    (state : WebSearchState) (ts : list task) : py (option WebSearchState) :=
  match ts with
  | [] => ret (Some state)
  | _ :: _ =>
    match fuel with
    | O => ret None
    | S fuel' =>
      let* (state', ts') := superstep (w k) state ts in
      run fuel' w (S k) state' ts'
    end
  end.

#[global] Instance Send_eq_dec : EqDecision Send.
Proof. solve_decision. Defined.
#[global] Instance task_eq_dec : EqDecision task.
Proof. solve_decision. Defined.

(** How many of the tasks of a step are evaluations. *)
Definition evaluations (ts : list task) : nat :=
  length (filter (λ t, t = Run n_evaluate_task_result) ts).

(** The configurations a run from [s0] passes through:
    [visits w s0 k e s ts] when after [k] steps, [e] evaluations among
    them, the state is [s] and the tasks [ts] are next. *)
Inductive visits (w : nat → World) (s0 : WebSearchState)
  : nat → nat → WebSearchState → list task → Prop :=
| visits_start : visits w s0 0 0 s0 start
| visits_step k e s ts s' ts' :
    visits w s0 k e s ts →
    ts ≠ [] →
    returns (superstep (w k) s ts) (s', ts') →
    visits w s0 (S k) (e + evaluations ts) s' ts'.

(** The state a sub-task starts from: the dict [plan_tasks] sends. *)
Definition initial_state (id description : str) : WebSearchState :=
  mkState [] (Some id) (Some description) None [] [] None (Some 0)
          (Some false).

End WebSearch.


(** ** [src/agents/planner/nodes.py] *)

Module Planner.
Import State.

(** The structured output asked from the model. *)
Record PlanTask := mkPlanTask { plan_task_description : str }.
Record TaskPlan := mkTaskPlan { tasks : list PlanTask; plan_reason : str }.

Inductive node := n_plan_tasks | n_websearch | n_generate_final_answer.

(** The dict a [Send] hands to a sub-task. *)
Record SubtaskInput := mkSubtaskInput {
  in_task_id : str;
  in_task_description : str;
  in_attempt : Z;
  in_completed : bool;
}.

Record Send := mkSend { send_to : node; send_arg : SubtaskInput }.

Inductive goto :=
| Sends (sends : list Send)
| END.

Record Update := mkUpdate {
  u_tasks : option (list Task);
  u_messages : option (list Message);
  u_final_answer : option str;
}.

Record Command := mkCommand { update : Update; goto_ : goto }.

Record World := mkWorld {
  system_prompt : node → str;
  llm_plan : list Message → outcome TaskPlan;
  llm_text : list Message → outcome str;
}.

Definition plan_tasks (w : World) (state : BaseState) : py Command :=
  let system_message := SystemMessage (system_prompt w n_plan_tasks) in
  try_except
    (let* messages := subscript "messages" (bs_messages state) in
     let* plan := call (llm_plan w ([system_message] ++ messages)) in
     if negb (truthy (Some (tasks plan))) then
       logger ERROR (lit "plan_tasksでタスクが空です") ;;
       raise no_active_exception
     else
       let sends :=
         imap (λ idx task,
                 mkSend n_websearch
                   (mkSubtaskInput (str_of_nat idx)
                      (plan_task_description task) 0 false))
              (tasks plan) in
       let initial_tasks :=
         imap (λ idx task,
                 mkTask (str_of_nat idx) (plan_task_description task) None)
              (tasks plan) in
       ret (mkCommand
              {| u_tasks := Some initial_tasks; u_messages := None;
                 u_final_answer := None |}
              (Sends sends)))
    (λ e,
       logger ERROR (lit "plan_tasksでエラーが発生しました: " ++ exn_str e) ;;
       raise e).

(** The list comprehension of [generate_final_answer]: one text per task,
    numbered from [idx + 1]; [task['task_result']] raises on a task
    without a result. *)
Fixpoint task_result_texts (idx : nat) (tasks : list Task) : py (list str) :=
  match tasks with
  | [] => ret []
  | task :: rest =>
    let* result := subscript "task_result" (task_result task) in
    let text :=
      lit "【タスク" ++ str_of_nat (idx + 1) ++ lit "】"
      ++ task_description task ++ nl ++ lit "結果: " ++ result in
    let* texts := task_result_texts (S idx) rest in
    ret (text :: texts)
  end.

Definition final_answer_request (user_query task_results_text : str) : str :=
  nl ++ lit "## ユーザーの質問:" ++ nl ++ user_query ++ nl ++ nl
  ++ lit "## タスクの実行結果:" ++ nl ++ task_results_text ++ nl ++ nl
  ++ lit "上記のタスク結果を統合して、ユーザーの質問に対する包括的な回答を生成してください。"
  ++ nl.

Definition generate_final_answer (w : World) (state : BaseState)
  : py Command :=
  let tasks := default [] (bs_tasks state) in
  if negb (truthy (Some tasks)) then
    logger ERROR (lit "generate_final_answerでタスクが空です") ;;
    raise no_active_exception
  else
    let* texts := task_result_texts 0 tasks in
    let task_results_text := join (nl ++ nl) texts in
    let messages := default [] (bs_messages state) in
    let* user_query :=
      match messages with
      | m :: _ => ret (msg_content m)
      | [] => raise IndexError
      end in
    let system_message :=
      SystemMessage (system_prompt w n_generate_final_answer) in
    let human_message :=
      HumanMessage (final_answer_request user_query task_results_text) in
    try_except
      (let* response := call (llm_text w [system_message; human_message]) in
       ret (mkCommand
              {| u_tasks := None; u_messages := Some [AIMessage response];
                 u_final_answer := Some response |}
              END))
      (λ e,
         logger ERROR
           (lit "generate_final_answerでエラーが発生しました: " ++ exn_str e) ;;
         raise e).

End Planner.

(** ** [src/graph/builder.py], [src/agents/planner/graph.py] and [main.py] *)

Module Pipeline.
Import State.

(** The state a sub-task graph starts from when it is handed the dict of
    a [Send]: the keys of the dict, nothing else. *)
Definition state_of_input (input : Planner.SubtaskInput)
  : WebSearch.WebSearchState :=
  WebSearch.mkState [] (Some (Planner.in_task_id input))
    (Some (Planner.in_task_description input)) None [] [] None
    (Some (Planner.in_attempt input)) (Some (Planner.in_completed input)).

(** The compiled sub-task graph as the node ["websearch"]
    ([add_node("websearch", websearch_graph.compile())]): it runs to its
    end and hands back the keys it shares with the planner state, of
    which it has written [tasks].  [None] when the fuel does not reach
    the end of the run. *)
Definition websearch (fuel : nat) (w : nat → WebSearch.World)
    (input : Planner.SubtaskInput) : py (option (list Task)) :=
  let* final :=
    WebSearch.run fuel w 0 (state_of_input input) WebSearch.start in
  ret (WebSearch.s_tasks <$> final).

(** How the engine folds an update into the planner state: [tasks]
    through [update_task], [messages] appended, [final_answer]
    overwritten. *)
Definition apply_update (state : BaseState) (u : Planner.Update)
  : BaseState :=
  {| bs_messages :=
       from_option (λ new, Some (default [] (bs_messages state) ++ new))
                   (bs_messages state) (Planner.u_messages u);
     bs_tasks :=
       from_option
         (λ new, Some (update_task (default [] (bs_tasks state)) new))
         (bs_tasks state) (Planner.u_tasks u);
     bs_final_answer :=
       from_option Some (bs_final_answer state) (Planner.u_final_answer u) |}.

(** What a finished sub-task writes to the planner state. *)
Definition tasks_update (out : list Task) : Planner.Update :=
  {| Planner.u_tasks := Some out; Planner.u_messages := None;
     Planner.u_final_answer := None |}.

(** The step of the [Send]s: one run of the sub-task graph per dict, the
    one at position [idx] with the collaborators [subs idx]. *)
Fixpoint fan_out (fuel : nat) (subs : nat → nat → WebSearch.World)
    (idx : nat) (inputs : list Planner.SubtaskInput)
  : py (option (list (list Task))) :=
  match inputs with
  | [] => ret (Some [])
  | input :: rest =>
    let* out := websearch fuel (subs idx) input in
    let* outs := fan_out fuel subs (S idx) rest in
    ret (match out, outs with
         | Some out, Some outs => Some (out :: outs)
         | _, _ => None
         end)
  end.

(** The graph [create_graph] builds, as the function its [ainvoke] is:
    [START → plan_tasks], the [Send]s of [plan_tasks] to ["websearch"],
    and the edge [websearch → generate_final_answer], taken once when
    all sub-tasks have ended. *)
Definition create_graph (fuel : nat) (w : Planner.World)
    (subs : nat → nat → WebSearch.World) (state : BaseState)
  : py (option BaseState) :=
  let* c := Planner.plan_tasks w state in
  let state := apply_update state (Planner.update c) in
  match Planner.goto_ c with
  | Planner.END => ret (Some state)
  | Planner.Sends [] => ret (Some state)
  | Planner.Sends sends =>
    let* outs := fan_out fuel subs 0 (Planner.send_arg <$> sends) in
    match outs with
    | None => ret None
    | Some outs =>
      let state := foldl apply_update state (tasks_update <$> outs) in
      let* c := Planner.generate_final_answer w state in
      ret (Some (apply_update state (Planner.update c)))
    end
  end.

(** [main]: what it prints.  The key ["attempt"] of its initial state is
    no key of the planner state. *)
Definition main (fuel : nat) (w : Planner.World)
    (subs : nat → nat → WebSearch.World) : py (option str) :=
  let app := create_graph fuel w subs in
  let initial_state :=
    mkBaseState (Some [HumanMessage (lit "今日の東京と埼玉の天気を教えて")])
                None None in
  try_except
    (let* result := app initial_state in
     match result with
     | None => ret None
     | Some result =>
       let* final_answer :=
         subscript "final_answer" (bs_final_answer result) in
       ret (Some (final_answer ++ nl))
     end)
    (λ e,
       ret (Some (nl ++ lit "エージェント実行中にエラーが発生しました: "
                  ++ exn_str e ++ nl))).

End Pipeline.

(** ** Notions used in the statements *)

Module Notions.
Import State WebSearch.

(** A provider result that has the two keys [execute_search] subscripts. *)
Definition well_formed (result : hit) : Prop :=
  is_Some (hit_link result) ∧ is_Some (hit_title result).

(** What the handling of one page leaves as content: the cut of the
    cleaned text of the first document, nothing when loading raised
    (a timeout included) or gave no document. *)
Definition fetched_content (w : World) (url_ : str) : option str :=
  match load_page w url_ page_timeout with
  | Returned (page_content :: _) =>
    Some (take content_limit (clean_text page_content))
  | _ => None
  end.

(** The entry one pass of the loop of [execute_search] appends. *)
Definition entry (w : World) (query_ : str) (result : hit) : SearchResult :=
  let url_ := default [] (hit_link result) in
  mkSearchResult query_ (default [] (hit_title result)) url_
    (default [] (hit_snippet result)) (fetched_content w url_).

(** The messages [evaluate_task_result] sends to the model. *)
Definition evaluation_messages (w : World) (state : WebSearchState)
  : list Message :=
  [SystemMessage (system_prompt w n_evaluate_task_result);
   HumanMessage (evaluation_request state)].

(** The attempt counter as the nodes read it. *)
Definition attempt_of (state : WebSearchState) : Z :=
  default 0 (s_attempt state).

(** The record a sub-task publishes to the task list. *)
Definition published (state : WebSearchState) : Task :=
  mkTask (default [] (s_task_id state))
         (default [] (s_task_description state))
         (Some (default [] (s_task_result state))).

(** The command that completes a sub-task. *)
Definition completion (state : WebSearchState) : Command :=
  mkCommand
    {| u_tasks := Some [published state]; u_task_result := None;
       u_search_queries := None; u_search_results := None;
       u_feedback := None; u_attempt := Some (attempt_of state + 1);
       u_completed := Some true |}
    END.

(** The command that sends a sub-task back to an earlier stage. *)
Definition rework (state : WebSearchState) (ev : TaskEvaluation)
    (results : option (list SearchResult)) (n : node) : Command :=
  mkCommand
    {| u_tasks := None; u_task_result := None; u_search_queries := None;
       u_search_results := results; u_feedback := Some (feedback ev);
       u_attempt := Some (attempt_of state + 1); u_completed := None |}
    (To n).

(** The model replies to every request. *)
Definition answers (w : World) : Prop :=
  (∀ ms, ∃ r, llm_queries w ms = Returned r)
  ∧ (∀ ms, ∃ r, llm_text w ms = Returned r)
  ∧ (∀ ms, ∃ r, llm_evaluation w ms = Returned r).

(** The stages of a round, with the number of steps from there to the
    end of the round's evaluation. *)
Inductive stage : list task → nat → Prop :=
| stage_evaluate : stage [Run n_evaluate_task_result] 1
| stage_result : stage [Run n_generate_task_result] 2
| stage_search sends : sends ≠ [] → stage (Push <$> sends) 3
| stage_queries : stage [Run n_generate_search_queries] 4.

(** [on_track s ts n]: the configuration is one of a regular run and at
    most [n] steps remain: a stage of the first round (counter 0) or of
    the second (counter 1), or the end, the task completed and
    published. *)
Inductive on_track : WebSearchState → list task → nat → Prop :=
| on_track_running s ts n :
    stage ts n →
    0 ≤ attempt_of s ≤ 1 →
    on_track s ts (n + 4 * Z.to_nat (1 - attempt_of s))
| on_track_done s :
    s_completed s = Some true →
    1 ≤ attempt_of s ≤ 2 →
    published s ∈ s_tasks s →
    on_track s [] 0.

End Notions.

Module PlannerNotions.
Import State Planner.

(** The messages [plan_tasks] sends to the model. *)
Definition plan_messages (w : World) (msgs : list Message) : list Message :=
  [SystemMessage (system_prompt w n_plan_tasks)] ++ msgs.

(** The task and the [Send] made for the description at position [idx]. *)
Definition initial_task (idx : nat) (task : PlanTask) : Task :=
  mkTask (str_of_nat idx) (plan_task_description task) None.
Definition dispatch (idx : nat) (task : PlanTask) : Send :=
  mkSend n_websearch
    (mkSubtaskInput (str_of_nat idx) (plan_task_description task) 0 false).

(** The text written for the task with a given number. *)
Definition task_text (number : nat) (task : Task) : str :=
  lit "【タスク" ++ str_of_nat number ++ lit "】" ++ task_description task
  ++ nl ++ lit "結果: " ++ default [] (task_result task).

(** The messages [generate_final_answer] sends to the model for a user
    query and a task list. *)
Definition final_answer_messages (w : World) (user_query : str)
    (tasks : list Task) : list Message :=
  [SystemMessage (system_prompt w n_generate_final_answer);
   HumanMessage
     (final_answer_request user_query
        (join (nl ++ nl) (imap (λ idx, task_text (idx + 1)) tasks)))].

End PlannerNotions.

Module SearchNotions.
Import State WebSearch Notions.

(** What the handling of one page logs: a warning when loading raised or
    gave no document, nothing otherwise. *)
Definition fetch_warning (w : World) (url_ : str) : list log_record :=
  match load_page w url_ page_timeout with
  | Returned (_ :: _) => []
  | Returned [] =>
    [Log WARNING
       (lit "execute_searchでWebページ取得エラー: " ++ exn_str IndexError)]
  | Raised e =>
    [Log WARNING (lit "execute_searchでWebページ取得エラー: " ++ exn_str e)]
  end.

(** The warnings of a loop over provider results, in order. *)
Definition fetch_warnings (w : World) (results : list hit)
  : list log_record :=
  concat ((λ result, fetch_warning w (default [] (hit_link result)))
          <$> results).

End SearchNotions.

Module RunNotions.
Import State WebSearch Notions.

(** The commands of query generation and of result generation. *)
Definition placeholder_command : Command :=
  mkCommand
    {| u_tasks := None;
       u_task_result := Some (lit "適切な検索クエリを生成できませんでした。");
       u_search_queries := None; u_search_results := None;
       u_feedback := None; u_attempt := None; u_completed := None |}
    (To n_evaluate_task_result).

Definition queries_command (qs : list str) : Command :=
  mkCommand
    {| u_tasks := None; u_task_result := None; u_search_queries := Some qs;
       u_search_results := None; u_feedback := None; u_attempt := None;
       u_completed := None |}
    (Sends (mkSend ∘ Some <$> qs)).

Definition draft_command (answer : str) : Command :=
  mkCommand
    {| u_tasks := None; u_task_result := Some answer;
       u_search_queries := None; u_search_results := None;
       u_feedback := None; u_attempt := None; u_completed := None |}
    (To n_evaluate_task_result).

(** What a sub-task started from [s0] keeps while it runs and holds when
    it has ended: its id and description never change and its query
    history only grows; while tasks remain, nothing is published and the
    completion flag is untouched; an evaluation always finds a draft;
    at the end the task list holds the one record of the sub-task, with
    the draft as result, and the flag is set. *)
Definition kept (s0 s : WebSearchState) (ts : list task) : Prop :=
  s_task_id s = s_task_id s0
  ∧ s_task_description s = s_task_description s0
  ∧ s_search_queries s0 `prefix_of` s_search_queries s
  ∧ (ts ≠ [] → s_tasks s = s_tasks s0 ∧ s_completed s = s_completed s0)
  ∧ (ts = [Run n_evaluate_task_result] ∨ ts = [] →
       is_Some (s_task_result s))
  ∧ (ts = [] →
       s_tasks s = update_task (s_tasks s0) [published s]
       ∧ s_completed s = Some true).

End RunNotions.

Module TextNotions.
Import WebSearch.

(** Stripping every line and dropping the empty ones. *)
Definition stripped_lines (lines : list str) : list str :=
  filter (λ line, line ≠ []) (strip <$> lines).

(** The lines of a text, stripped, the empty ones dropped. *)
Definition lines_of (text : str) : list str :=
  stripped_lines (split_newline text).

(** A line as [clean_text] leaves it: not empty, no newline in it, no
    white space at either end. *)
Definition clean_line (line : str) : Prop :=
  line ≠ []
  ∧ (10%N ∉ line)
  ∧ (∀ c, head line = Some c → isspace c = false)
  ∧ (∀ c, last line = Some c → isspace c = false).

End TextNotions.

Module TraceNotions.
Import State WebSearch Notions.

(** Every stored search result was found by a query of the history, and
    every search about to run is for a query of the history. *)
Definition traced (s : WebSearchState) (ts : list task) : Prop :=
  Forall (λ r, query r ∈ s_search_queries s) (s_search_results s)
  ∧ ∀ arg, Push arg ∈ ts →
      ∃ q, arg_query arg = Some q ∧ q ∈ s_search_queries s.

End TraceNotions.

Module Expected.
Import State WebSearch.

(** The command expected of a search that stores the entries [rs]: the
    update names the search results and no other key, and the sub-task
    goes on to result generation. *)
Definition search_command (rs : list SearchResult) : Command :=
  mkCommand
    {| u_tasks := None; u_task_result := None; u_search_queries := None;
       u_search_results := Some rs; u_feedback := None; u_attempt := None;
       u_completed := None |}
    (To n_generate_task_result).

(** The text expected in the synthesis prompt for the task with a given
    number, description and result. *)
Definition synthesis_text (number : nat) (description result : str) : str :=
  lit "【タスク" ++ str_of_nat number ++ lit "】" ++ description
  ++ nl ++ lit "結果: " ++ result.

(** The synthesis prompt expected for a user query and a task list: the
    query, then the texts of the tasks, numbered from 1 in list order
    and separated by blank lines, then the request. *)
Definition synthesis_prompt (user_query : str) (tasks : list Task) : str :=
  nl ++ lit "## ユーザーの質問:" ++ nl ++ user_query ++ nl ++ nl
  ++ lit "## タスクの実行結果:" ++ nl
  ++ join (nl ++ nl)
       (imap (λ idx task,
                synthesis_text (idx + 1) (task_description task)
                  (default [] (task_result task)))
             tasks)
  ++ nl ++ nl
  ++ lit "上記のタスク結果を統合して、ユーザーの質問に対する包括的な回答を生成してください。"
  ++ nl.

End Expected.

(** ** Sample collaborators *)

Module Samples.
Import State WebSearch.

Definition hit1 : hit :=
  mkHit (Some (lit "https://a.example/")) (Some (lit "A"))
        (Some (lit "about a")).
Definition hit2 : hit :=
  mkHit (Some (lit "https://b.example/")) (Some (lit "B")) None.

Definition timeout_error : exn := Exn (lit "TimeoutError") [].
Definition provider_error : exn :=
  Exn (lit "HttpError") (lit "503 Service Unavailable").

(** A world whose model asks for the queries [q1] and [q2] and always
    wants another search; whose provider answers [q1] with two results
    and fails on anything else; whose loader reads the first page and
    times out on any other. *)
Definition world : World :=
  {| system_prompt := λ _, [];
     llm_queries := λ _,
       Returned (mkSearchQueries [lit "q1"; lit "q2"] (lit "two angles"));
     llm_text := λ _, Returned (lit "draft");
     llm_evaluation := λ _,
       Returned (mkTaskEvaluation false (Some search) (lit "thin")
                   (Some (lit "search again")));
     google_results := λ q _,
       if decide (q = lit "q1") then Returned [hit1; hit2]
       else Raised provider_error;
     load_page := λ u _,
       if decide (u = lit "https://a.example/")
       then Returned [lit "  page " ++ nl ++ nl ++ nl ++ lit " text  "]
       else Raised timeout_error |}.

Definition subtask : WebSearchState :=
  initial_state (lit "0") (lit "weather in A").

(** A planner world whose model plans two tasks and answers [done]. *)
Definition planner_world : Planner.World :=
  {| Planner.system_prompt := λ _, [];
     Planner.llm_plan := λ _,
       Returned (Planner.mkTaskPlan
                   [Planner.mkPlanTask (lit "weather in A");
                    Planner.mkPlanTask (lit "weather in B")]
                   (lit "one per city"));
     Planner.llm_text := λ _, Returned (lit "done") |}.

Definition question : list Message := [HumanMessage (lit "weather in A and B")].

Definition asked : BaseState := mkBaseState (Some question) None None.

Definition answered : BaseState :=
  mkBaseState (Some question)
    (Some [mkTask (lit "0") (lit "weather in A") (Some (lit "sunny"));
           mkTask (lit "1") (lit "weather in B") (Some (lit "rain"))])
    None.

End Samples.

(** * Properties *)

(** ** The task-list reducer *)

Section task_list.
Import State.
Implicit Types (existing new : list Task) (t : Task) (id : str).

Lemma update_task_nonempty existing new :
  new ≠ [] →
  update_task existing new
  = filter (λ t, task_id t ∉ ids new) existing ++ new.
Proof.
  intros Hne. unfold update_task.
  rewrite bool_decide_eq_false_2 by done. cbn zeta. f_equal.
  apply list_filter_iff. intros t. unfold ids.
  by rewrite elem_of_list_to_set.
Qed.

Lemma task_with_id_Some id l t :
  task_with_id id l = Some t → t ∈ l ∧ task_id t = id.
Proof.
  induction l as [|u l IH]; cbn; [done|].
  case_bool_decide as Hu.
  - intros [= ->]. split; [left|done].
  - intros [??]%IH. split; [by right|done].
Qed.

Lemma task_with_id_None id l : task_with_id id l = None ↔ id ∉ ids l.
Proof.
  induction l as [|u l IH]; cbn.
  - split; [intros _; apply not_elem_of_nil|done].
  - rewrite not_elem_of_cons. case_bool_decide as Hu.
    + split; [done|]. intros [? _]. congruence.
    + rewrite IH. split; [by intros ?; split; [congruence|]|by intros [_ ?]].
Qed.

Lemma task_with_id_unique l t :
  NoDup (ids l) → t ∈ l → task_with_id (task_id t) l = Some t.
Proof.
  induction l as [|u l IH]; cbn; [by intros _ ?%elem_of_nil|].
  intros [Hu Hl]%NoDup_cons [->|Ht]%elem_of_cons.
  - by rewrite bool_decide_eq_true_2.
  - case_bool_decide as Heq; [|by apply IH].
    destruct Hu. rewrite Heq. by apply list_elem_of_fmap_2.
Qed.

Lemma ids_update_task existing new id :
  new ≠ [] →
  id ∈ ids (update_task existing new) ↔ id ∈ ids existing ∨ id ∈ ids new.
Proof.
  intros Hne. rewrite update_task_nonempty by done. unfold ids at 1.
  rewrite fmap_app, elem_of_app, !list_elem_of_fmap.
  setoid_rewrite list_elem_of_filter. split.
  - intros [(t & -> & _ & Ht)|(t & -> & Ht)].
    + left. by apply list_elem_of_fmap_2.
    + right. by apply list_elem_of_fmap_2.
  - intros [(t & -> & Ht)%list_elem_of_fmap|(t & -> & Ht)%list_elem_of_fmap].
    + destruct (decide (task_id t ∈ ids new)) as [Hin|Hout].
      * apply list_elem_of_fmap in Hin as (u & Hu & ?). right. eauto.
      * left. eauto.
    + right. eauto.
Qed.

Lemma NoDup_update_task existing new :
  NoDup (ids existing) → NoDup (ids new) →
  NoDup (ids (update_task existing new)).
Proof.
  intros He Hn. destruct (decide (new = [])) as [->|Hne]; [done|].
  rewrite update_task_nonempty by done. unfold ids at 1.
  rewrite fmap_app. apply NoDup_app. split_and!.
  - clear Hn Hne. induction existing as [|u l IH]; [constructor|].
    apply NoDup_cons in He as [Hu Hl]. rewrite filter_cons.
    case_decide; [|by apply IH]. cbn. apply NoDup_cons. split; [|by apply IH].
    intros (t & Ht & [_ Hin]%list_elem_of_filter)%list_elem_of_fmap.
    apply Hu. rewrite Ht. by apply list_elem_of_fmap_2.
  - intros id (t & -> & [Hout _]%list_elem_of_filter)%list_elem_of_fmap.
    exact Hout.
  - exact Hn.
Qed.

(** C5.  Merging a non-empty update without repeated ids into a task
    list without repeated ids: under every id of the update the merged
    list holds the update's task (an existing entry with that id is
    replaced, a new id is appended); every other existing task is kept;
    the merged list holds nothing else, consists of the kept tasks in
    their order followed by the update, and has no repeated id. *)
Theorem update_task_replace_or_append existing new :
  new ≠ [] →
  NoDup (ids new) →
  NoDup (ids existing) →
  let merged := update_task existing new in
  (∀ t, t ∈ new → task_with_id (task_id t) merged = Some t)
  ∧ (∀ t, t ∈ existing → task_id t ∉ ids new →
          task_with_id (task_id t) merged = Some t)
  ∧ (∀ t, t ∈ merged → t ∈ new ∨ (t ∈ existing ∧ task_id t ∉ ids new))
  ∧ (∀ id, id ∈ ids merged ↔ id ∈ ids existing ∨ id ∈ ids new)
  ∧ merged = filter (λ t, task_id t ∉ ids new) existing ++ new
  ∧ NoDup (ids merged).
Proof.
  intros Hne Hn He merged.
  assert (Hshape : merged = filter (λ t, task_id t ∉ ids new) existing ++ new)
    by by apply update_task_nonempty.
  assert (Hnd : NoDup (ids merged)) by by apply NoDup_update_task.
  split_and!; try done.
  - intros t Ht. apply task_with_id_unique; [done|].
    rewrite Hshape, elem_of_app. by right.
  - intros t Ht Hout. apply task_with_id_unique; [done|].
    rewrite Hshape, elem_of_app. left. by apply list_elem_of_filter.
  - intros t. rewrite Hshape, elem_of_app, list_elem_of_filter. tauto.
  - intros id. by apply ids_update_task.
Qed.

Lemma update_task_replace_or_append_witness :
  let existing := [mkTask (lit "0") (lit "a") None;
                   mkTask (lit "1") (lit "b") None] in
  let new := [mkTask (lit "1") (lit "b") (Some (lit "r"))] in
  update_task existing new
  = [mkTask (lit "0") (lit "a") None;
     mkTask (lit "1") (lit "b") (Some (lit "r"))]
  ∧ NoDup (ids (update_task existing new)).
Proof.
  intros existing new. split; [by vm_compute|].
  apply (update_task_replace_or_append existing new).
  - done.
  - apply (bool_decide_unpack _). by vm_compute.
  - apply (bool_decide_unpack _). by vm_compute.
Defined.

End task_list.

(** ** The search-result reducer *)

Section search_result_list.
Import State WebSearch.
Implicit Types (left right : list SearchResult).

Lemma merge_clear (left : option (list SearchResult)) :
  merge_search_results left (Some []) = [].
Proof. done. Qed.

Lemma merge_append left right :
  left ≠ [] → right ≠ [] →
  merge_search_results (Some left) (Some right) = left ++ right.
Proof. by destruct left, right. Qed.

Lemma merge_first right :
  merge_search_results (Some []) (Some right) = right.
Proof. by destruct right. Qed.

Lemma merge_absent left : merge_search_results (Some left) None = left.
Proof. by destruct left. Qed.

(** C10.  An empty task update changes nothing, whatever the task
    list; an empty search-result update empties the list, whatever it
    held. *)
Theorem empty_update_identity_not_clear :
  (∀ existing : list Task, update_task existing [] = existing)
  ∧ (∀ left : option (list SearchResult),
       merge_search_results left (Some []) = []).
Proof. split; [done|apply merge_clear]. Qed.

End search_result_list.

(** ** Computations *)

Section computations.
Context {A B : Type}.
Implicit Types (m : py A) (k : A → py B).

Lemma bind_returned l a k : bind (l, Returned a) k = (l ++ (k a).1, (k a).2).
Proof. unfold bind. by destruct (k a). Qed.

Lemma bind_raised l e k : bind (l, Raised e) k = (l, Raised e).
Proof. done. Qed.

Lemma bind_outcome m k :
  (bind m k).2
  = match m.2 with Returned a => (k a).2 | Raised e => Raised e end.
Proof. destruct m as [l [a|e]]; [by rewrite bind_returned|done]. Qed.

Lemma try_except_outcome m (h : exn → py A) :
  (try_except m h).2
  = match m.2 with Returned a => Returned a | Raised e => (h e).2 end.
Proof. destruct m as [l [a|e]]; cbn; [done|]. by destruct (h e). Qed.

Lemma returns_inv m a : returns m a → ∃ l, m = (l, Returned a).
Proof. destruct m as [l o]. unfold returns. cbn. intros ->. eauto. Qed.

End computations.

(** Unfolds the plumbing of [py] computations. *)
Ltac py_unfold :=
unfold bind, try_except, call, ret, raise, logger, subscript in *.

(** ** One search: [execute_search] *)

Section one_search.
Import State WebSearch Notions.
Implicit Types (w : World) (results : list hit) (q : str).
#[local] Opaque lit clean_text.

Lemma fetch_result_returns w q t u sn acc :
  returns (fetch_result w q t u sn acc)
          (acc ++ [mkSearchResult q t u sn (fetched_content w u)]).
Proof.
  unfold returns, fetch_result, fetched_content.
  rewrite try_except_outcome, bind_outcome. unfold call. cbn [snd].
  by destruct (load_page w u page_timeout) as [[|page docs]|e].
Qed.

(** The loop appends one entry per result, in order, unless a result
    lacks a key, which raises. *)
Lemma for_result_in_outcome w q results acc :
  (Forall well_formed results
   ∧ returns (for_result_in w q results acc) (acc ++ (entry w q <$> results)))
  ∨ (¬ Forall well_formed results ∧ raises (for_result_in w q results acc)).
Proof.
  revert acc. induction results as [|h results IH]; intros acc.
  - left. split; [constructor|]. unfold returns. cbn. by rewrite app_nil_r.
  - cbn [for_result_in]. destruct h as [[u|] [t|] sn]; cbn [hit_link hit_title].
    + unfold subscript, ret. rewrite !bind_returned. cbn [fst snd app].
      destruct (returns_inv _ _ (fetch_result_returns w q t u (default [] sn) acc))
        as [l1 Hbody].
      cbn [hit_snippet]. rewrite Hbody, bind_returned.
      unfold returns, raises. cbn [snd].
      destruct (IH (acc ++
        [mkSearchResult q t u (default [] sn) (fetched_content w u)]))
        as [[Hwf Hret]|[Hwf Hraise]].
      * left. split; [constructor; [split; eauto|done]|].
        unfold returns in Hret. rewrite Hret. by rewrite <- app_assoc.
      * right. split; [|done]. by intros [_ ?]%Forall_cons.
    + right. split; [intros [[_ [? [=]]] _]%Forall_cons|].
      unfold raises, subscript, ret, raise.
      rewrite bind_returned, bind_raised. cbn. eauto.
    + right. split; [intros [[[? [=]] _] _]%Forall_cons|].
      unfold raises, subscript, raise. rewrite bind_raised. cbn. eauto.
    + right. split; [intros [[[? [=]] _] _]%Forall_cons|].
      unfold raises, subscript, raise. rewrite bind_raised. cbn. eauto.
Qed.

(** Every search returns an update of the search results and goes on
    to result generation; the results are one entry per provider
    result, or none at all. *)
Lemma execute_search_outcome w arg :
  ∃ rs, returns (execute_search w arg) (search_results_update rs)
    ∧ (rs = []
       ∨ ∃ results,
           google_results w (default [] (arg_query arg)) 2 = Returned results
           ∧ Forall well_formed results
           ∧ rs = entry w (default [] (arg_query arg)) <$> results).
Proof.
  unfold execute_search. set (q := default [] (arg_query arg)).
  destruct q as [|c q'] eqn:Hq; cbn [truthy negb]; [by eexists; split; [|left]|].
  rewrite <- Hq. unfold returns. rewrite try_except_outcome, bind_outcome.
  unfold call, num_results. cbn [snd].
  destruct (google_results w q 2) as [[|h results]|e] eqn:Hg; cbn [truthy negb].
  - by eexists; split; [|left].
  - rewrite bind_outcome.
    destruct (for_result_in_outcome w q (h :: results) []) as [[Hwf Hret]|[Hwf [e He]]].
    + unfold returns in Hret. rewrite Hret. cbn [snd app].
      eexists; split; [done|]. right. eauto.
    + rewrite He. unfold logger, ret. rewrite bind_returned. cbn [snd].
      by eexists; split; [|left].
  - unfold logger, ret. rewrite bind_returned. cbn [snd].
    by eexists; split; [|left].
Qed.

Lemma execute_search_never_raises w arg : ¬ raises (execute_search w arg).
Proof.
  destruct (execute_search_outcome w arg) as (rs & Hret & _).
  intros [e He]. unfold returns in Hret. congruence.
Qed.

Lemma execute_search_well_formed w q results :
  q ≠ [] →
  google_results w q 2 = Returned results →
  Forall well_formed results →
  returns (execute_search w (mkSend (Some q)))
          (search_results_update (entry w q <$> results)).
Proof.
  intros Hq Hg Hwf. unfold execute_search, returns.
  cbn [arg_query default from_option id]. destruct q as [|c q']; [done|].
  cbn [truthy negb]. rewrite try_except_outcome, bind_outcome.
  unfold call, num_results. rewrite Hg. cbn [snd].
  destruct results as [|h results]; [done|].
  cbn [truthy negb]. rewrite bind_outcome.
  destruct (for_result_in_outcome w (c :: q') (h :: results) [])
    as [[_ Hret]|[? _]]; [|done].
  unfold returns in Hret. by rewrite Hret.
Qed.

(** C8.  A search for a non-empty query asks the provider for 2
    results.  When every provider result carries its link and title,
    the search returns (it does not raise) a command that goes on to
    result generation and whose update names the search results only:
    one entry per provider result, in the provider's order, each with
    the query and the provider's link, title and snippet.  The content
    of an entry is decided by the load of its page, given 15 seconds:
    none when the load raised (a timeout included) or gave no document,
    the first 2500 characters of the cleaned text of the first document
    when it returned one. *)
Theorem execute_search_degrades_per_result w q results :
  q ≠ [] →
  google_results w q 2 = Returned results →
  Forall well_formed results →
  ∃ rs,
    returns (execute_search w (mkSend (Some q))) (Expected.search_command rs)
    ∧ length rs = length results
    ∧ ∀ i h, results !! i = Some h →
        ∃ r, rs !! i = Some r
          ∧ query r = q
          ∧ Some (url r) = hit_link h
          ∧ Some (title r) = hit_title h
          ∧ snippet r = default [] (hit_snippet h)
          ∧ (∀ e, load_page w (url r) 15 = Raised e → content r = None)
          ∧ (load_page w (url r) 15 = Returned [] → content r = None)
          ∧ (∀ page docs,
               load_page w (url r) 15 = Returned (page :: docs) →
               content r = Some (take 2500 (clean_text page))).
Proof.
  intros Hq Hg Hwf. exists (entry w q <$> results).
  split; [exact (execute_search_well_formed w q results Hq Hg Hwf)|].
  split; [by rewrite length_fmap|].
  intros i h Hi. exists (entry w q h).
  rewrite list_lookup_fmap, Hi.
  rewrite Forall_lookup in Hwf. destruct (Hwf i h Hi) as [[u Hu] [t Ht]].
  unfold entry, fetched_content, page_timeout, content_limit.
  rewrite Hu, Ht. cbn [default from_option id query title url snippet content].
  split_and!; try done.
  - cbn [fmap option_fmap option_map]. by rewrite Hu, Ht.
  - by intros e ->.
  - by intros ->.
  - by intros page docs ->.
Qed.

(** C9.  In the same situation, the command the search returns carries
    in its update, at the position of a provider result whose page load
    returned documents, an entry whose content is the first 2500
    characters of the cleaned text of the first document; and no content
    in that update is longer than 2500 characters. *)
Theorem stored_content_is_cut w q results i h u page docs :
  q ≠ [] →
  google_results w q 2 = Returned results →
  Forall well_formed results →
  results !! i = Some h →
  hit_link h = Some u →
  load_page w u 15 = Returned (page :: docs) →
  ∃ rs r,
    returns (execute_search w (mkSend (Some q))) (Expected.search_command rs)
    ∧ length rs = length results
    ∧ rs !! i = Some r
    ∧ url r = u
    ∧ content r = Some (take 2500 (clean_text page))
    ∧ ∀ r' c, r' ∈ rs → content r' = Some c → (length c ≤ 2500)%nat.
Proof.
  intros Hq Hg Hwf Hi Hu Hload.
  exists (entry w q <$> results), (entry w q h).
  split; [exact (execute_search_well_formed w q results Hq Hg Hwf)|].
  split; [by rewrite length_fmap|].
  split; [by rewrite list_lookup_fmap, Hi|].
  split; [unfold entry; by rewrite Hu|].
  split.
  - unfold entry, fetched_content, page_timeout, content_limit.
    rewrite Hu. cbn [content default from_option id]. by rewrite Hload.
  - intros r' c (h' & -> & _)%list_elem_of_fmap.
    unfold entry, fetched_content, content_limit. cbn [content].
    destruct (load_page w _ page_timeout) as [[|p ds]|e]; try done.
    intros [= <-]. rewrite length_take. lia.
Qed.

Lemma execute_search_degrades_per_result_witness :
  ∃ rs,
    returns (execute_search Samples.world (mkSend (Some (lit "q1"))))
            (Expected.search_command rs)
    ∧ length rs = 2%nat.
Proof.
  destruct (execute_search_degrades_per_result Samples.world (lit "q1")
              [Samples.hit1; Samples.hit2]) as (rs & Hret & Hlen & _).
  - by vm_compute.
  - by vm_compute.
  - repeat constructor; by eexists.
  - exists rs. by split.
Defined.

Lemma stored_content_is_cut_witness :
  ∃ rs r,
    returns (execute_search Samples.world (mkSend (Some (lit "q1"))))
            (Expected.search_command rs)
    ∧ rs !! 0%nat = Some r
    ∧ content r = Some (lit "page" ++ nl ++ lit "text").
Proof.
  destruct (stored_content_is_cut Samples.world (lit "q1")
              [Samples.hit1; Samples.hit2] 0 Samples.hit1
              (lit "https://a.example/")
              (lit "  page " ++ nl ++ nl ++ nl ++ lit " text  ") [])
    as (rs & r & Hret & _ & Hr & _ & Hc & _).
  - by vm_compute.
  - by vm_compute.
  - repeat constructor; by eexists.
  - done.
  - done.
  - by vm_compute.
  - exists rs, r. split_and!; [done..|]. rewrite Hc. by vm_compute.
Defined.

(** What [execute_search] does when the provider call raises: it logs
    the error and returns an empty update. *)
Lemma provider_failure_empty_update w q e :
  q ≠ [] →
  google_results w q 2 = Raised e →
  execute_search w (mkSend (Some q))
  = ([Log ERROR (lit "execute_searchでエラーが発生しました: " ++ exn_str e)],
     Returned (search_results_update [])).
Proof.
  intros Hq Hg. unfold execute_search. cbn [arg_query default from_option id].
  destruct q as [|c q']; [done|]. cbn [truthy negb].
  unfold call, num_results. by rewrite Hg.
Qed.

(** C3.  In a round of two queries where the first finds two results
    and the provider call of the second raises, the second search does
    not raise and returns an empty update; the first query alone leaves
    its two results in the state; the round of both leaves none. *)
Theorem failed_query_clears_sibling_results :
  let q1 := mkSend (Some (lit "q1")) in
  let q2 := mkSend (Some (lit "q2")) in
  returns (execute_search Samples.world q2) (search_results_update [])
  ∧ (∃ s', returns (superstep Samples.world Samples.subtask [Push q1])
                   (s', [Run n_generate_task_result])
           ∧ length (s_search_results s') = 2%nat)
  ∧ (∃ s', returns (superstep Samples.world Samples.subtask [Push q1; Push q2])
                   (s', [Run n_generate_task_result])
           ∧ s_search_results s' = []).
Proof.
  intros q1 q2. split_and!.
  - by vm_compute.
  - eexists. split; by vm_compute.
  - eexists. split; by vm_compute.
Qed.

End one_search.

(** ** Evaluation: [evaluate_task_result] *)

Section evaluation.
Import State WebSearch Notions.
Implicit Types (w : World) (state : WebSearchState) (ev : TaskEvaluation).
#[local] Opaque lit.

(** The decision of [evaluate_task_result], case by case. *)
Lemma evaluate_task_result_cases w state ev :
  llm_evaluation w (evaluation_messages w state) = Returned ev →
  let attempt := attempt_of state + 1 in
  (is_satisfactory ev = true ∨ 2 ≤ attempt →
     evaluate_task_result w state = ([], Returned (completion state)))
  ∧ (is_satisfactory ev = false → attempt < 2 → need ev = Some search →
     evaluate_task_result w state
     = ([], Returned (rework state ev (Some []) n_generate_search_queries)))
  ∧ (is_satisfactory ev = false → attempt < 2 → need ev = Some generate →
     evaluate_task_result w state
     = ([], Returned (rework state ev None n_generate_task_result)))
  ∧ (is_satisfactory ev = false → attempt < 2 → need ev = None →
     evaluate_task_result w state
     = ([Log WARNING
           (lit "evaluate_task_result: is_satisfactory=False but need=None. Completing task anyway.")],
        Returned (completion state))).
Proof.
  intros Hreply attempt. unfold evaluation_messages in Hreply.
  unfold evaluate_task_result. rewrite Hreply. fold (attempt_of state).
  fold attempt. py_unfold. split_and!.
  - intros Hdone.
    assert (is_satisfactory ev || (2 <=? attempt) = true) as ->; [|done].
    destruct Hdone as [->|?]; [done|]. apply orb_true_iff. right. lia.
  - intros -> ? ->. by rewrite (proj2 (Z.leb_gt 2 attempt)).
  - intros -> ? ->. by rewrite (proj2 (Z.leb_gt 2 attempt)).
  - intros -> ? ->. by rewrite (proj2 (Z.leb_gt 2 attempt)).
Qed.

(** C2.  When the model returns an evaluation, the counter is
    incremented before anything is decided, and then, in this order:
    a satisfactory draft or a counter of 2 or more completes the task
    and publishes its record, nothing logged; otherwise a need for
    search sends it back to query generation with the search results
    emptied and the feedback stored; otherwise a need for generation
    sends it back to result generation with the feedback stored;
    otherwise (unsatisfactory, no need named) a warning is logged and
    the task is completed with the same record. *)
Theorem evaluate_decision_rule w state ev :
  llm_evaluation w (evaluation_messages w state) = Returned ev →
  let attempt := attempt_of state + 1 in
  (is_satisfactory ev = true ∨ 2 ≤ attempt →
     evaluate_task_result w state = ([], Returned (completion state)))
  ∧ (is_satisfactory ev = false → attempt < 2 → need ev = Some search →
     evaluate_task_result w state
     = ([], Returned (rework state ev (Some []) n_generate_search_queries)))
  ∧ (is_satisfactory ev = false → attempt < 2 → need ev = Some generate →
     evaluate_task_result w state
     = ([], Returned (rework state ev None n_generate_task_result)))
  ∧ (is_satisfactory ev = false → attempt < 2 → need ev = None →
     evaluate_task_result w state
     = ([Log WARNING
           (lit "evaluate_task_result: is_satisfactory=False but need=None. Completing task anyway.")],
        Returned (completion state))).
Proof. apply evaluate_task_result_cases. Qed.

Lemma evaluate_decision_rule_witness :
  evaluate_task_result Samples.world Samples.subtask
  = ([], Returned (rework Samples.subtask
                     (mkTaskEvaluation false (Some search) (lit "thin")
                        (Some (lit "search again")))
                     (Some []) n_generate_search_queries)).
Proof.
  apply (evaluate_decision_rule Samples.world Samples.subtask); by vm_compute.
Defined.

(** C4.  When the evaluation is unsatisfactory, the counter after the
    increment is below 2 and the need is search, the command goes to
    query generation and its update carries an empty search-result list
    and the feedback; folded into the state by the engine, whatever the
    list held, it leaves the list empty and the feedback stored; and
    query generation, which runs next, does not touch the list. *)
Theorem need_search_clears_results w state ev :
  llm_evaluation w (evaluation_messages w state) = Returned ev →
  is_satisfactory ev = false →
  need ev = Some search →
  attempt_of state + 1 < 2 →
  ∃ c,
    returns (evaluate_task_result w state) c
    ∧ goto_ c = To n_generate_search_queries
    ∧ u_search_results (update c) = Some []
    ∧ u_feedback (update c) = Some (feedback ev)
    ∧ returns (superstep w state [Run n_evaluate_task_result])
              (apply_update state (update c), [Run n_generate_search_queries])
    ∧ s_search_results (apply_update state (update c)) = []
    ∧ s_feedback (apply_update state (update c)) = feedback ev
    ∧ ∀ w' c', returns (generate_search_queries w'
                          (apply_update state (update c))) c' →
               u_search_results (update c') = None.
Proof.
  intros Hreply Hsat Hneed Hlt.
  destruct (evaluate_task_result_cases w state ev Hreply) as (_ & Heval & _).
  specialize (Heval Hsat Hlt Hneed).
  exists (rework state ev (Some []) n_generate_search_queries).
  split_and!; try done.
  - unfold returns. by rewrite Heval.
  - unfold superstep, returns. cbn [run_tasks run_task]. by rewrite Heval.
  - intros w' c'. unfold generate_search_queries, returns.
    rewrite try_except_outcome, bind_outcome. unfold call. cbn [snd].
    destruct (llm_queries w' _) as [[qs why]|e]; cbn [queries].
    + destruct qs as [|q qs]; cbn [truthy negb].
      * unfold logger, ret. rewrite bind_returned. cbn [snd].
        by intros [= <-].
      * unfold ret. cbn [snd]. by intros [= <-].
    + unfold logger, raise. by rewrite bind_returned.
Qed.

Lemma need_search_clears_results_witness :
  ∃ c, returns (evaluate_task_result Samples.world Samples.subtask) c
       ∧ s_search_results (apply_update Samples.subtask (update c)) = [].
Proof.
  destruct (need_search_clears_results Samples.world Samples.subtask
              (mkTaskEvaluation false (Some search) (lit "thin")
                 (Some (lit "search again"))))
    as (c & Hret & _ & _ & _ & _ & Hclear & _); try by vm_compute.
  exists c. by split.
Defined.

End evaluation.

(** ** The run of a sub-task *)

Section subtask_run.
Import State WebSearch Notions.
Implicit Types (w : World) (s : WebSearchState) (ts : list task).
#[local] Opaque lit.

Lemma stage_nonempty ts n : stage ts n → ts ≠ [].
Proof. intros [| |[|? ?] ?|]; done. Qed.

Lemma stage_bounds ts n : stage ts n → (1 ≤ n ≤ 4)%nat.
Proof. intros []; lia. Qed.

Lemma on_track_end s n :
  on_track s [] n →
  n = 0%nat ∧ s_completed s = Some true ∧ 1 ≤ attempt_of s ≤ 2
  ∧ published s ∈ s_tasks s.
Proof.
  inversion 1 as [? ? ? Hst|]; subst; [|done].
  by apply stage_nonempty in Hst.
Qed.

Lemma on_track_bounds s ts n :
  on_track s ts n → 0 ≤ attempt_of s ≤ 2 ∧ (n ≤ 8)%nat.
Proof.
  intros [? ? ? Hst Ha|]; [|lia].
  apply stage_bounds in Hst. lia.
Qed.

(** Updates that do not name the counter leave it alone. *)
Lemma attempt_of_apply_update s u :
  u_attempt u = None → attempt_of (apply_update s u) = attempt_of s.
Proof. unfold attempt_of. cbn. by intros ->. Qed.

Lemma attempt_of_search_updates s (rss : list (list SearchResult)) :
  attempt_of (foldl apply_update s
                (update <$> (search_results_update <$> rss)))
  = attempt_of s.
Proof.
  revert s. induction rss as [|rs rss IH]; intros s; [done|].
  cbn [fmap list_fmap foldl]. rewrite IH. by apply attempt_of_apply_update.
Qed.

(** The searches of a round all return and all go on to result
    generation. *)
Lemma run_tasks_searches w s sends :
  ∃ rss, returns (run_tasks w s (Push <$> sends))
                 (search_results_update <$> rss)
         ∧ length rss = length sends.
Proof.
  induction sends as [|arg sends (rss & Hret & Hlen)]; [by exists []|].
  destruct (execute_search_outcome w arg) as (rs & Hrs & _).
  exists (rs :: rss). split; [|by cbn; rewrite Hlen].
  unfold returns in *. cbn [fmap list_fmap run_tasks run_task].
  rewrite bind_outcome, Hrs, bind_outcome. cbn [fmap] in Hret.
  by rewrite Hret.
Qed.

Lemma remove_dups_replicate `{EqDecision X} (x : X) k :
  remove_dups (replicate (S k) x) = [x].
Proof.
  induction k as [|k IH].
  - cbn. destruct (decide_rel elem_of x []) as [Hin|_]; [|done].
    by apply elem_of_nil in Hin.
  - change (replicate (S (S k)) x) with (x :: replicate (S k) x).
    cbn [remove_dups].
    destruct (decide_rel elem_of x (replicate (S k) x)) as [_|Hout]; [done|].
    destruct Hout. left.
Qed.

Lemma next_tasks_searches (rss : list (list SearchResult)) :
  rss ≠ [] →
  next_tasks (search_results_update <$> rss) = [Run n_generate_task_result].
Proof.
  intros Hne. unfold next_tasks.
  assert (concat (goto_sends ∘ goto_ <$> (search_results_update <$> rss)) = [])
    as -> by (clear Hne; induction rss; [done|by cbn]).
  assert (concat (goto_nodes ∘ goto_ <$> (search_results_update <$> rss))
          = replicate (length rss) n_generate_task_result)
    as -> by (clear Hne; induction rss; [done|by cbn; f_equal]).
  destruct rss as [|rs rss]; [done|]. cbn [length].
  by rewrite remove_dups_replicate.
Qed.

Lemma superstep_single_returns w s t c :
  returns (run_task w s t) c →
  returns (superstep w s [t]) (apply_update s (update c), next_tasks [c]).
Proof.
  unfold returns, superstep. cbn [run_tasks]. intros Hc.
  by rewrite !bind_outcome, Hc.
Qed.

Lemma superstep_single_raises w s t :
  raises (run_task w s t) → raises (superstep w s [t]).
Proof.
  unfold raises, superstep. cbn [run_tasks]. intros [e He].
  exists e. by rewrite !bind_outcome, He.
Qed.

Lemma next_tasks_single (c : Command) :
  next_tasks [c]
  = match goto_ c with
    | To n => [Run n]
    | Sends sends => Push <$> sends
    | END => []
    end.
Proof.
  unfold next_tasks. destruct c as [u [n|sends|]]; cbn.
  - destruct (decide_rel elem_of n []) as [Hin|_]; [|done].
    by apply elem_of_nil in Hin.
  - by rewrite !app_nil_r.
  - done.
Qed.

Lemma published_in_update_task (existing : list Task) (t : Task) :
  t ∈ update_task existing [t].
Proof. rewrite update_task_nonempty by done. apply elem_of_app. right. left. Qed.

(** What each state-reading node does, up to its log. *)
Lemma generate_search_queries_outcome w s :
  match llm_queries w [SystemMessage (system_prompt w n_generate_search_queries);
                       HumanMessage (queries_request s)] with
  | Raised e => raises (generate_search_queries w s)
  | Returned r =>
    ∃ u, u_attempt u = None
      ∧ returns (generate_search_queries w s)
          (mkCommand u
             (if negb (truthy (Some (queries r))) then To n_evaluate_task_result
              else Sends (mkSend ∘ Some <$> queries r)))
  end.
Proof.
  unfold generate_search_queries, returns, raises.
  rewrite try_except_outcome, bind_outcome. unfold call. cbn [snd].
  destruct (llm_queries w _) as [[qs why]|e]; cbn [queries].
  - destruct qs as [|q qs]; cbn [truthy negb].
    + unfold logger, ret. rewrite bind_returned. cbn [snd]. eexists; split; [|reflexivity]; reflexivity.
    + unfold ret. cbn [snd]. eexists; split; [|reflexivity]; reflexivity.
  - unfold logger, raise. rewrite bind_returned. cbn [snd]. eauto.
Qed.

Lemma generate_task_result_outcome w s :
  match llm_text w [SystemMessage (system_prompt w n_generate_task_result);
                    HumanMessage (result_request s)] with
  | Raised e => raises (generate_task_result w s)
  | Returned r =>
    ∃ u, u_attempt u = None
      ∧ returns (generate_task_result w s)
                (mkCommand u (To n_evaluate_task_result))
  end.
Proof.
  unfold generate_task_result, returns, raises.
  rewrite try_except_outcome, bind_outcome. unfold call. cbn [snd].
  destruct (llm_text w _) as [r|e].
  - unfold ret. cbn [snd]. eexists; split; [|reflexivity]; reflexivity.
  - unfold logger, raise. rewrite bind_returned. cbn [snd]. eauto.
Qed.

Lemma evaluate_task_result_raises w s e :
  llm_evaluation w (evaluation_messages w s) = Raised e →
  raises (evaluate_task_result w s).
Proof.
  unfold evaluation_messages, evaluate_task_result, raises. intros He.
  rewrite try_except_outcome, bind_outcome. unfold call. rewrite He.
  unfold logger, raise. rewrite bind_returned. cbn [snd]. eauto.
Qed.

(** The three ways an evaluation that returned leaves the node. *)
Lemma evaluate_task_result_outcome w s ev :
  llm_evaluation w (evaluation_messages w s) = Returned ev →
  returns (evaluate_task_result w s) (completion s)
  ∨ (attempt_of s + 1 < 2
     ∧ returns (evaluate_task_result w s)
               (rework s ev (Some []) n_generate_search_queries))
  ∨ (attempt_of s + 1 < 2
     ∧ returns (evaluate_task_result w s)
               (rework s ev None n_generate_task_result)).
Proof.
  intros Hreply.
  destruct (evaluate_task_result_cases w s ev Hreply)
    as (Hdone & Hsearch & Hgen & Hnone).
  unfold returns.
  destruct (is_satisfactory ev) eqn:Hsat; [left; by rewrite Hdone; [|left]|].
  destruct (decide (2 ≤ attempt_of s + 1)) as [Hcap|Hlt];
    [left; by rewrite Hdone; [|right]|].
  destruct (need ev) as [[]|] eqn:Hneed.
  - right; left. split; [lia|]. rewrite Hsearch; [done..|lia|done].
  - right; right. split; [lia|]. rewrite Hgen; [done..|lia|done].
  - left. rewrite Hnone; [done..|lia|done].
Qed.

(** One step of a regular run: it raises, a model call having failed,
    or it leads to a regular configuration with fewer steps left; the
    counter grows by one exactly in an evaluation. *)
Lemma superstep_progress w s ts n :
  on_track s ts n → ts ≠ [] →
  (raises (superstep w s ts) ∧ ¬ answers w)
  ∨ ∃ s' ts' n',
      returns (superstep w s ts) (s', ts')
      ∧ on_track s' ts' n' ∧ (n' < n)%nat
      ∧ attempt_of s' = attempt_of s + Z.of_nat (evaluations ts).
Proof.
  intros [s1 ts1 n1 Hst Ha|] Hne; [|done]. destruct Hst as [| |sends Hsends|].
  - (* evaluation *)
    destruct (llm_evaluation w (evaluation_messages w s1)) as [ev|e] eqn:Hreply.
    + right.
      destruct (evaluate_task_result_outcome w s1 ev Hreply)
        as [Hret|[[Hlt Hret]|[Hlt Hret]]];
        apply (superstep_single_returns w s1 (Run n_evaluate_task_result))
          in Hret; rewrite next_tasks_single in Hret; cbn [goto_ completion rework] in Hret.
      * eexists _, _, _. split; [exact Hret|].
        assert (attempt_of (apply_update s1 (update (completion s1)))
                = attempt_of s1 + 1) as Hnew by done.
        split; [apply on_track_done;
                  [done|rewrite Hnew; lia|apply published_in_update_task]|].
        split; [lia|by rewrite Hnew].
      * eexists _, _, _. split; [exact Hret|].
        assert (attempt_of (apply_update s1
                  (update (rework s1 ev (Some []) n_generate_search_queries)))
                = attempt_of s1 + 1) as Hnew by done.
        split; [apply on_track_running; [constructor|lia]|].
        rewrite Hnew. split; [lia|done].
      * eexists _, _, _. split; [exact Hret|].
        assert (attempt_of (apply_update s1
                  (update (rework s1 ev None n_generate_task_result)))
                = attempt_of s1 + 1) as Hnew by done.
        split; [apply on_track_running; [constructor|lia]|].
        rewrite Hnew. split; [lia|done].
    + left. split.
      * apply superstep_single_raises. by eapply evaluate_task_result_raises.
      * intros (_ & _ & Hev).
        destruct (Hev (evaluation_messages w s1)) as [r Hr]. congruence.
  - (* result generation *)
    pose proof (generate_task_result_outcome w s1) as Hnode.
    destruct (llm_text w _) as [r|e] eqn:Hreply.
    + right. destruct Hnode as (u & Hu & Hret).
      apply (superstep_single_returns w s1 (Run n_generate_task_result)) in Hret.
      rewrite next_tasks_single in Hret. cbn [goto_ update] in Hret.
      eexists _, _, _. split; [exact Hret|].
      rewrite (attempt_of_apply_update _ _ Hu).
      split; [apply on_track_running; [constructor|]|].
      * by rewrite (attempt_of_apply_update _ _ Hu).
      * rewrite (attempt_of_apply_update _ _ Hu). split; [lia|].
           vm_compute (evaluations _). lia.
    + left. split; [by apply superstep_single_raises|].
      intros (_ & Htext & _).
      destruct (Htext [SystemMessage (system_prompt w n_generate_task_result);
                       HumanMessage (result_request s1)]) as [r Hr].
      congruence.
  - (* the searches *)
    right. destruct (run_tasks_searches w s1 sends) as (rss & Hret & Hlen).
    assert (rss ≠ []) as Hrss
      by (intros ->; destruct sends; [done|discriminate]).
    eexists (foldl apply_update s1 (update <$> (search_results_update <$> rss))),
            _, _.
    split.
    { unfold returns, superstep in *. rewrite bind_outcome, Hret.
      cbn [ret snd]. by rewrite next_tasks_searches. }
    rewrite attempt_of_search_updates.
    split; [apply on_track_running; [constructor|]|].
    + by rewrite attempt_of_search_updates.
    + rewrite attempt_of_search_updates. split; [lia|].
      assert (evaluations (Push <$> sends) = 0%nat) as ->; [|lia].
      clear. induction sends as [|arg sends IH]; [done|]. exact IH.
  - (* query generation *)
    pose proof (generate_search_queries_outcome w s1) as Hnode.
    destruct (llm_queries w _) as [r|e] eqn:Hreply.
    + right. destruct Hnode as (u & Hu & Hret).
      apply (superstep_single_returns w s1 (Run n_generate_search_queries))
        in Hret.
      rewrite next_tasks_single in Hret. cbn [goto_ update] in Hret.
      destruct (queries r) as [|q qs]; cbn [truthy negb] in Hret.
      * eexists _, _, _. split; [exact Hret|].
        rewrite (attempt_of_apply_update _ _ Hu).
        split; [apply on_track_running; [constructor|]|].
        -- by rewrite (attempt_of_apply_update _ _ Hu).
        -- rewrite (attempt_of_apply_update _ _ Hu). split; [lia|].
           vm_compute (evaluations _). lia.
      * eexists _, _, _. split; [exact Hret|].
        rewrite (attempt_of_apply_update _ _ Hu).
        split; [apply on_track_running; [by constructor|]|].
        -- by rewrite (attempt_of_apply_update _ _ Hu).
        -- rewrite (attempt_of_apply_update _ _ Hu). split; [lia|].
           vm_compute (evaluations _). lia.
    + left. split; [by apply superstep_single_raises|].
      intros (Hqueries & _).
      destruct (Hqueries
                  [SystemMessage (system_prompt w n_generate_search_queries);
                   HumanMessage (queries_request s1)]) as [r Hr].
      congruence.
Qed.

(** A regular configuration with at most [fuel] steps left runs to
    the end within the fuel, unless a model call fails on the way. *)
Lemma run_on_track (w : nat → World) fuel k s ts n :
  on_track s ts n → (n ≤ fuel)%nat →
  (raises (run fuel w k s ts) ∧ ∃ j, ¬ answers (w j))
  ∨ ∃ s', returns (run fuel w k s ts) (Some s') ∧ on_track s' [] 0.
Proof.
  revert k s ts n. induction fuel as [|fuel IH]; intros k s ts n Hon Hn.
  - destruct Hon as [? ? ? Hst _|]; [apply stage_bounds in Hst; lia|].
    right. exists s. split; [done|by constructor].
  - destruct ts as [|t ts].
    { right. exists s. split; [done|].
      by destruct (on_track_end _ _ Hon) as (-> & _). }
    cbn [run]. unfold raises, returns. rewrite bind_outcome.
    destruct (superstep_progress (w k) s (t :: ts) n Hon)
      as [[[e He] Hno]|(s' & ts' & n' & Hret & Hon' & Hlt & _)]; [done|..].
    + left. rewrite He. eauto.
    + unfold returns in Hret. rewrite Hret.
      apply (IH (S k) s' ts' n' Hon'). lia.
Qed.

Lemma visits_on_track (w : nat → World) s0 k e s ts :
  attempt_of s0 = 0 →
  visits w s0 k e s ts →
  ∃ n, on_track s ts n ∧ (n + k ≤ 8)%nat ∧ attempt_of s = Z.of_nat e.
Proof.
  intros H0. induction 1 as [|k e s ts s' ts' _ (n & Hon & Hk & He) Hne Hret].
  - exists (4 + 4 * Z.to_nat (1 - attempt_of s0))%nat.
    split; [apply on_track_running; [constructor|lia]|].
    rewrite H0. split; [vm_compute; lia|done].
  - destruct (superstep_progress (w k) s ts n Hon Hne)
      as [[[x Hx] _]|(s1 & ts1 & n1 & Hret1 & Hon1 & Hlt & Hcount)].
    { unfold returns in Hret. congruence. }
    unfold returns in *. rewrite Hret in Hret1. injection Hret1 as <- <-.
    exists n1. split; [done|]. split; [lia|]. lia.
Qed.

(** C1.  For a sub-task that starts with the counter at 0, whatever
    the collaborators answer at each step: in every configuration of
    the run the counter equals the number of evaluations made so far
    and is at most 2, and once it is 2 no task is left to run and the
    sub-task is marked complete; the run takes at most 8 steps and
    never runs out of them; and when every model call returns, it ends
    with the sub-task marked complete, the counter at 1 or 2 and the
    record published. *)
Theorem subtask_terminates (w : nat → World) s0 :
  attempt_of s0 = 0 →
  (∀ k e s ts, visits w s0 k e s ts →
     attempt_of s = Z.of_nat e ∧ 0 ≤ attempt_of s ≤ 2 ∧ (k ≤ 8)%nat
     ∧ (e = 2%nat → ts = [] ∧ s_completed s = Some true))
  ∧ (∀ l, run 8 w 0 s0 start ≠ (l, Returned None))
  ∧ ((∀ k, answers (w k)) →
     ∃ s, returns (run 8 w 0 s0 start) (Some s)
          ∧ s_completed s = Some true
          ∧ 1 ≤ attempt_of s ≤ 2
          ∧ published s ∈ s_tasks s).
Proof.
  intros H0.
  assert (on_track s0 start 8) as Hstart.
  { replace 8%nat with (4 + 4 * Z.to_nat (1 - attempt_of s0))%nat
      by (rewrite H0; vm_compute; lia).
    apply on_track_running; [constructor|lia]. }
  split_and!.
  - intros k e s ts Hv.
    destruct (visits_on_track w s0 k e s ts H0 Hv) as (n & Hon & Hk & He).
    destruct (on_track_bounds _ _ _ Hon) as [Hbound _].
    split; [done|]. split; [done|]. split; [lia|]. intros ->.
    destruct Hon as [? ? ? _ Ha|]; [lia|done].
  - intros l Hrun.
    destruct (run_on_track w 8 0 s0 start 8 Hstart)
      as [[[e He] _]|(s & Hret & _)]; [done|..].
    + rewrite Hrun in He. done.
    + unfold returns in Hret. rewrite Hrun in Hret. done.
  - intros Hanswers.
    destruct (run_on_track w 8 0 s0 start 8 Hstart)
      as [[_ [j Hj]]|(s & Hret & Hon)]; [done|by destruct Hj|].
    exists s. split; [done|]. by destruct (on_track_end _ _ Hon) as (_ & ?).
Qed.

Lemma subtask_terminates_witness :
  ∃ s, returns (run 8 (λ _, Samples.world) 0 Samples.subtask start) (Some s)
       ∧ s_completed s = Some true
       ∧ 1 ≤ attempt_of s ≤ 2.
Proof.
  destruct (subtask_terminates (λ _, Samples.world) Samples.subtask)
    as (_ & _ & Hends); [by vm_compute|].
  destruct Hends as (s & Hret & Hdone & Hcount & _).
  - intros _. split_and!; intros ms; eexists; reflexivity.
  - by exists s.
Defined.

End subtask_run.

(** ** Planning and synthesis *)

Section planner.
Import State Planner PlannerNotions.
Implicit Types (w : World) (state : BaseState).
#[local] Opaque lit.

Lemma str_of_nat_inj : Inj (=) (=) str_of_nat.
Proof.
  intros n n' Heq. unfold str_of_nat in Heq.
  apply Unsigned.to_uint_inj.
  assert (Inj (=) (=) N_of_ascii) as Hinj.
  { intros a a' Ha. by rewrite <- (ascii_N_embedding a), Ha, ascii_N_embedding. }
  apply (inj (fmap N_of_ascii)) in Heq.
  apply (f_equal string_of_list_ascii) in Heq.
  rewrite !string_of_list_ascii_of_string in Heq.
  apply (f_equal NilEmpty.uint_of_string) in Heq.
  rewrite !NilEmpty.usu in Heq. congruence.
Qed.

(** C6.  When the model returns a plan: with no task in it,
    [plan_tasks] logs and raises; with N ≥ 1 descriptions, it returns
    an update of N tasks and N dispatches to the sub-task graph, the
    task and the dispatch at position i carrying the decimal text of i
    as id and the i-th description, the dispatch starting with counter
    0 and not completed; and the ids are pairwise different. *)
Theorem plan_tasks_fans_out w state msgs plan :
  bs_messages state = Some msgs →
  llm_plan w (plan_messages w msgs) = Returned plan →
  (tasks plan = [] →
     plan_tasks w state
     = ([Log ERROR (lit "plan_tasksでタスクが空です");
         Log ERROR (lit "plan_tasksでエラーが発生しました: "
                    ++ exn_str no_active_exception)],
        Raised no_active_exception))
  ∧ (tasks plan ≠ [] →
     ∃ initial_tasks sends,
       plan_tasks w state
       = ([], Returned (mkCommand
                          {| u_tasks := Some initial_tasks;
                             u_messages := None; u_final_answer := None |}
                          (Sends sends)))
       ∧ length initial_tasks = length (tasks plan)
       ∧ length sends = length (tasks plan)
       ∧ (∀ i task, tasks plan !! i = Some task →
            initial_tasks !! i = Some (initial_task i task)
            ∧ sends !! i = Some (dispatch i task))
       ∧ NoDup (ids initial_tasks)).
Proof.
  intros Hmsgs Hplan. unfold plan_messages in Hplan.
  unfold plan_tasks. rewrite Hmsgs. py_unfold. cbn [app] in Hplan.
  cbn. rewrite Hplan. split.
  - by intros ->.
  - intros Hne. destruct (tasks plan) as [|t ts] eqn:Hts; [done|].
    cbn [truthy negb]. eexists _, _. split; [reflexivity|].
    rewrite !length_imap. split_and!; try done.
    + intros i task Hi. rewrite !list_lookup_imap, Hi. done.
    + apply NoDup_alt. intros i j id. unfold ids.
      rewrite !list_lookup_fmap, !list_lookup_imap.
      destruct ((t :: ts) !! i) as [ti|]; [|done].
      destruct ((t :: ts) !! j) as [tj|]; [|done].
      cbn. intros [= <-] [= Hj]. by apply str_of_nat_inj in Hj.
Qed.

Lemma plan_tasks_fans_out_witness :
  ∃ initial_tasks sends,
    returns (plan_tasks Samples.planner_world Samples.asked)
            (mkCommand {| u_tasks := Some initial_tasks;
                          u_messages := None; u_final_answer := None |}
                       (Sends sends))
    ∧ length initial_tasks = 2%nat
    ∧ length sends = 2%nat.
Proof.
  destruct (plan_tasks_fans_out Samples.planner_world Samples.asked
              Samples.question
              (mkTaskPlan [mkPlanTask (lit "weather in A");
                           mkPlanTask (lit "weather in B")]
                          (lit "one per city")))
    as [_ Hplan]; [by vm_compute..|].
  destruct Hplan as (initial_tasks & sends & Hret & Hl1 & Hl2 & _); [done|].
  exists initial_tasks, sends. unfold returns. by rewrite Hret.
Defined.

Lemma task_result_texts_returns idx (tasks : list Task) :
  (∀ t, t ∈ tasks → is_Some (task_result t)) →
  task_result_texts idx tasks
  = ([], Returned (imap (λ i, task_text (idx + i + 1)) tasks)).
Proof.
  revert idx. induction tasks as [|t tasks IH]; intros idx Hall; [done|].
  cbn [task_result_texts imap].
  destruct (Hall t) as [r Hr]; [left|].
  rewrite IH by (intros; apply Hall; by right).
  rewrite Hr. py_unfold. cbn [app]. do 3 f_equal.
  - unfold task_text. rewrite Hr. by rewrite Nat.add_0_r.
  - apply imap_ext. intros i u _. unfold compose.
    by replace (S idx + i + 1)%nat with (idx + S i + 1)%nat by lia.
Qed.

(** A part of a joined text occurs in it. *)
Lemma join_lookup (sep : str) (parts : list str) i part :
  parts !! i = Some part →
  ∃ before after, join sep parts = before ++ part ++ after.
Proof.
  revert i. induction parts as [|p0 rest IH]; intros i Hi; [done|].
  destruct i as [|i].
  - injection Hi as ->. exists []. destruct rest as [|p1 rest].
    + exists []. cbn [join app]. by rewrite app_nil_r.
    + by exists (sep ++ join sep (p1 :: rest)).
  - cbn [lookup list_lookup] in Hi.
    destruct (IH i Hi) as (before & after & Hjoin).
    destruct rest as [|p1 rest]; [done|].
    exists (p0 ++ sep ++ before), after.
    change (join sep (p0 :: p1 :: rest))
      with (p0 ++ sep ++ join sep (p1 :: rest)).
    rewrite Hjoin. by rewrite <- !app_assoc.
Qed.

(** The request of the code is the expected synthesis prompt. *)
Lemma final_answer_request_prompt user_query (tasks : list Task) :
  final_answer_request user_query
    (join (nl ++ nl) (imap (λ i, task_text (0 + i + 1)) tasks))
  = Expected.synthesis_prompt user_query tasks.
Proof.
  unfold final_answer_request, Expected.synthesis_prompt.
  do 8 (apply (f_equal2 app); [reflexivity|]).
  apply (f_equal2 app); reflexivity.
Qed.

(** C7.  With no task in the state, [generate_final_answer] logs and
    raises.  With a non-empty task list in which every task carries a
    result, and a message history whose first message is the user's
    query, it asks the model once, with the system prompt and the
    synthesis prompt: the query, the texts of all tasks, the request.
    The model having replied, it returns the reply as the final answer
    (and as a new message) and goes to the end; the model having
    raised, it logs and raises the same exception.  The synthesis
    prompt holds, for every task of the list, the text with the task's
    number (its position, from 1), description and result. *)
Theorem generate_final_answer_synthesis w state :
  (default [] (bs_tasks state) = [] →
     generate_final_answer w state
     = ([Log ERROR (lit "generate_final_answerでタスクが空です")],
        Raised no_active_exception))
  ∧ (∀ tasks m msgs,
       bs_tasks state = Some tasks →
       tasks ≠ [] →
       (∀ t, t ∈ tasks → is_Some (task_result t)) →
       bs_messages state = Some (m :: msgs) →
       let asked :=
         [SystemMessage (system_prompt w n_generate_final_answer);
          HumanMessage (Expected.synthesis_prompt (msg_content m) tasks)] in
       (∀ reply,
          llm_text w asked = Returned reply →
          generate_final_answer w state
          = ([], Returned (mkCommand
                             {| u_tasks := None;
                                u_messages := Some [AIMessage reply];
                                u_final_answer := Some reply |}
                             END)))
       ∧ (∀ e,
            llm_text w asked = Raised e →
            generate_final_answer w state
            = ([Log ERROR
                  (lit "generate_final_answerでエラーが発生しました: "
                   ++ exn_str e)],
               Raised e))
       ∧ (∀ i t r,
            tasks !! i = Some t →
            task_result t = Some r →
            ∃ before after,
              Expected.synthesis_prompt (msg_content m) tasks
              = before
                ++ (lit "【タスク" ++ str_of_nat (i + 1) ++ lit "】"
                    ++ task_description t ++ nl ++ lit "結果: " ++ r)
                ++ after)).
Proof.
  split.
  - intros Hempty. unfold generate_final_answer. by rewrite Hempty.
  - intros tasks m msgs Htasks Hne Hall Hmsgs asked. subst asked.
    assert (generate_final_answer w state
            = try_except
                (let* response :=
                   call (llm_text w
                     [SystemMessage (system_prompt w n_generate_final_answer);
                      HumanMessage
                        (Expected.synthesis_prompt (msg_content m) tasks)]) in
                 ret (mkCommand
                        {| u_tasks := None;
                           u_messages := Some [AIMessage response];
                           u_final_answer := Some response |}
                        END))
                (λ e,
                   logger ERROR
                     (lit "generate_final_answerでエラーが発生しました: "
                      ++ exn_str e) ;;
                   raise e)) as Hrun.
    { unfold generate_final_answer. rewrite Htasks, Hmsgs.
      cbn [default from_option id].
      destruct tasks as [|t ts] eqn:Hts; [done|]. cbn [truthy negb].
      rewrite <- Hts in *. rewrite task_result_texts_returns by done.
      rewrite <- final_answer_request_prompt. py_unfold.
      by destruct (llm_text w _). }
    split_and!.
    + intros reply Hreply. rewrite Hrun. py_unfold. by rewrite Hreply.
    + intros e He. rewrite Hrun. py_unfold. by rewrite He.
    + intros i t r Hi Hr.
      destruct (join_lookup (nl ++ nl)
                  (imap (λ idx task,
                           Expected.synthesis_text (idx + 1)
                             (task_description task)
                             (default [] (task_result task))) tasks)
                  i
                  (Expected.synthesis_text (i + 1) (task_description t) r))
        as (before & after & Hjoin).
      { rewrite list_lookup_imap, Hi. cbn [fmap option_fmap option_map].
        by rewrite Hr. }
      unfold Expected.synthesis_prompt. rewrite Hjoin.
      exists (nl ++ lit "## ユーザーの質問:" ++ nl ++ msg_content m ++ nl ++ nl
              ++ lit "## タスクの実行結果:" ++ nl ++ before).
      exists (after ++ nl ++ nl
              ++ lit "上記のタスク結果を統合して、ユーザーの質問に対する包括的な回答を生成してください。"
              ++ nl).
      unfold Expected.synthesis_text. by rewrite <- !app_assoc.
Qed.

(** A task that carries no result, as [plan_tasks] creates it, makes
    the synthesis raise before the model is asked. *)
Example generate_final_answer_missing_result :
  (generate_final_answer Samples.planner_world
     (mkBaseState (Some Samples.question)
        (Some [mkTask (lit "0") (lit "weather in A") None]) None)).2
  = Raised (KeyError "task_result").
Proof. by vm_compute. Qed.

Lemma generate_final_answer_synthesis_witness :
  returns (generate_final_answer Samples.planner_world Samples.answered)
          (mkCommand {| u_tasks := None;
                        u_messages := Some [AIMessage (lit "done")];
                        u_final_answer := Some (lit "done") |}
                     END).
Proof.
  destruct (generate_final_answer_synthesis Samples.planner_world
              Samples.answered) as [_ Hsynth].
  destruct (Hsynth
              [mkTask (lit "0") (lit "weather in A") (Some (lit "sunny"));
               mkTask (lit "1") (lit "weather in B") (Some (lit "rain"))]
              (HumanMessage (lit "weather in A and B")) [])
    as (Hreply & _ & _).
  - done.
  - done.
  - intros t [->|[->|[]%elem_of_nil]%elem_of_cons]%elem_of_cons; by eexists.
  - done.
  - unfold returns. by rewrite (Hreply (lit "done")).
Defined.

End planner.

(** * Further properties *)

(** ** The reducers under composition *)

Section reducers_composed.
Import State WebSearch Notions.
Implicit Types (existing new : list Task) (t : Task).

Lemma filter_all {X} (P : X → Prop) `{∀ x, Decision (P x)} (l : list X) :
Forall P l → filter P l = l.
Proof.
induction 1 as [|x l Hx _ IH]; [done|]. by rewrite filter_cons_True, IH.
Qed.

Lemma filter_none {X} (P : X → Prop) `{∀ x, Decision (P x)} (l : list X) :
Forall (λ x, ¬ P x) l → filter P l = [].
Proof.
induction 1 as [|x l Hx _ IH]; [done|]. by rewrite filter_cons_False.
Qed.

Lemma filter_fresh_ids (new l : list Task) :
ids l ⊆ ids new → filter (λ t, task_id t ∉ ids new) l = [].
Proof.
intros Hsub. induction l as [|u l IH]; [done|].
rewrite filter_cons. rewrite decide_False.
- apply IH. intros id Hid. apply Hsub. by right.
- intros Hout. apply Hout, Hsub. left.
Qed.

(** X1.  Applying the same task update twice is the same as applying it
    once. *)
Theorem update_task_idempotent existing new :
update_task (update_task existing new) new = update_task existing new.
Proof.
destruct (decide (new = [])) as [->|Hne]; [done|].
rewrite !update_task_nonempty by done.
rewrite filter_app, (filter_fresh_ids new new) by done.
rewrite app_nil_r. f_equal.
rewrite list_filter_filter. apply list_filter_iff. tauto.
Qed.

(** The ids of a filtered list are the filtered ids. *)
Lemma ids_filter_out (new existing : list Task) :
ids (filter (λ t, task_id t ∉ ids new) existing)
= filter (λ id, id ∉ ids new) (ids existing).
Proof.
induction existing as [|u l IH]; [done|].
unfold ids in *. rewrite fmap_cons, !filter_cons.
destruct (decide (task_id u ∉ task_id <$> new)); [|done].
by rewrite fmap_cons, IH.
Qed.

(** X2.  An update that only names ids the list already has, each once,
    leaves the number of tasks and the ids as they are, up to order. *)
Theorem update_task_known_ids existing new :
NoDup (ids existing) →
NoDup (ids new) →
ids new ⊆ ids existing →
length (update_task existing new) = length existing
∧ ids (update_task existing new) ≡ₚ ids existing.
Proof.
intros He Hn Hsub.
assert (ids (update_task existing new) ≡ₚ ids existing) as Hperm.
{ apply NoDup_Permutation; [by apply NoDup_update_task|done|].
  intros id. destruct (decide (new = [])) as [->|Hne]; [done|].
  rewrite ids_update_task by done. split; [|by left].
  intros [?|?]; [done|by apply Hsub]. }
split; [|done].
apply Permutation_length in Hperm. unfold ids in Hperm.
by rewrite !length_fmap in Hperm.
Qed.

Lemma update_task_known_ids_witness :
let existing := [mkTask (lit "0") (lit "a") None;
                 mkTask (lit "1") (lit "b") None] in
let new := [mkTask (lit "0") (lit "a") (Some (lit "r"))] in
length (update_task existing new) = 2%nat.
Proof.
intros existing new.
apply (update_task_known_ids existing new).
- apply (bool_decide_unpack _). by vm_compute.
- apply (bool_decide_unpack _). by vm_compute.
- apply (bool_decide_unpack _). by vm_compute.
Defined.

Lemma fan_in_general (done_ rest_e rest_n : list Task) :
ids rest_e = ids rest_n →
NoDup (ids (rest_e ++ done_)) →
foldl update_task (rest_e ++ done_) ((λ t, [t]) <$> rest_n) = done_ ++ rest_n.
Proof.
revert done_ rest_e. induction rest_n as [|n rest_n IH]; intros done_ rest_e.
- destruct rest_e; [|done]. intros _ _. by rewrite app_nil_r.
- destruct rest_e as [|e rest_e]; [done|]. intros [= Hid Hids] Hnd.
  cbn [fmap list_fmap foldl].
  assert (update_task ((e :: rest_e) ++ done_) [n] = rest_e ++ (done_ ++ [n]))
    as ->.
  { rewrite update_task_nonempty by done. rewrite app_assoc. f_equal.
    cbn [app]. rewrite filter_cons, decide_False
      by (intros Hout; apply Hout; unfold ids; cbn; rewrite Hid; left).
    apply filter_all, Forall_forall. intros t Ht Hin.
    unfold ids in Hin. cbn in Hin. apply list_elem_of_singleton in Hin.
    unfold ids in Hnd. cbn in Hnd. apply NoDup_cons in Hnd as [Hfresh _].
    apply Hfresh. rewrite Hid, <- Hin. by apply list_elem_of_fmap_2. }
  rewrite (IH (done_ ++ [n]) rest_e Hids); [by rewrite <- app_assoc|].
  unfold ids in *. cbn in Hnd. rewrite !fmap_app. cbn.
  rewrite fmap_app in Hnd. apply NoDup_cons in Hnd as [Hfresh Hnd].
  rewrite app_assoc. apply NoDup_app. split_and!; [done| |apply NoDup_singleton].
  intros id Hin ->%list_elem_of_singleton. by rewrite <- Hid in Hin.
Qed.

(** X3.  When the tasks of a list are updated one by one, in the order of
    the list, each by a task with the same id, the list ends up holding
    exactly the updating tasks, in that order. *)
Theorem update_task_fan_in existing (results : list Task) :
NoDup (ids existing) →
ids results = ids existing →
foldl update_task existing ((λ t, [t]) <$> results) = results.
Proof.
intros Hnd Hids.
pose proof (fan_in_general [] existing results) as Hgen.
rewrite !app_nil_r in Hgen. by apply Hgen.
Qed.

Lemma update_task_fan_in_witness :
let existing := [mkTask (lit "0") (lit "a") None;
                 mkTask (lit "1") (lit "b") None] in
let results := [mkTask (lit "0") (lit "a") (Some (lit "r0"));
                mkTask (lit "1") (lit "b") (Some (lit "r1"))] in
foldl update_task existing ((λ t, [t]) <$> results) = results.
Proof.
intros existing results.
apply (update_task_fan_in existing results).
- apply (bool_decide_unpack _). by vm_compute.
- by vm_compute.
Defined.

End reducers_composed.

(** ** The results of a round of searches *)

Section round_results.
Import State WebSearch Notions.
Implicit Types (s : WebSearchState) (rss : list (list SearchResult)).
#[local] Opaque lit clean_text.

Lemma merge_nonempty (left right : list SearchResult) :
right ≠ [] → merge_search_results (Some left) (Some right) = left ++ right.
Proof. by destruct left, right. Qed.

Lemma search_results_fold s rss :
s_search_results
  (foldl apply_update s (update <$> (search_results_update <$> rss)))
= foldl (λ acc rs, merge_search_results (Some acc) (Some rs))
        (s_search_results s) rss.
Proof.
revert s. induction rss as [|rs rss IH]; intros s; [done|].
cbn [fmap list_fmap foldl]. by rewrite IH.
Qed.

Lemma fold_merge_nonempty (left : list SearchResult) rss :
Forall (λ rs, rs ≠ []) rss →
foldl (λ acc rs, merge_search_results (Some acc) (Some rs)) left rss
= left ++ concat rss.
Proof.
intros Hall. revert left.
induction Hall as [|rs rss Hrs _ IH]; intros left; cbn [foldl concat].
- by rewrite app_nil_r.
- by rewrite IH, merge_nonempty, <- app_assoc.
Qed.

(** X4.  The search results a round leaves in the state: when every
    search of the round found something, the results held before followed
    by those of the searches, in order; when some search came back empty,
    only the results of the searches after the last empty one. *)
Theorem round_results_after_last_empty s rss :
let s' := foldl apply_update s (update <$> (search_results_update <$> rss)) in
(Forall (λ rs, rs ≠ []) rss →
   s_search_results s' = s_search_results s ++ concat rss)
∧ (∀ before after,
     rss = before ++ [] :: after →
     Forall (λ rs, rs ≠ []) after →
     s_search_results s' = concat after).
Proof.
intros s'. unfold s'. rewrite search_results_fold. split.
- apply fold_merge_nonempty.
- intros before after -> Hafter. rewrite foldl_app. cbn [foldl].
  rewrite merge_clear. by rewrite fold_merge_nonempty.
Qed.

Lemma round_results_after_last_empty_witness :
let r := mkSearchResult (lit "q") (lit "t") (lit "u") (lit "s") None in
s_search_results
  (foldl apply_update Samples.subtask
     (update <$> (search_results_update <$> [[r]; []; [r; r]])))
= [r; r].
Proof.
intros r.
destruct (round_results_after_last_empty Samples.subtask [[r]; []; [r; r]])
  as [_ Hlast].
apply (Hlast [[r]] [[r; r]]).
- done.
- by repeat constructor.
Defined.

(** The searches of a step return one update each, in order. *)
Lemma run_tasks_searches_entries w s sends :
∃ rss, returns (run_tasks w s (Push <$> sends)) (search_results_update <$> rss)
       ∧ Forall2 (λ arg rs, returns (execute_search w arg)
                                    (search_results_update rs)) sends rss.
Proof.
induction sends as [|arg sends (rss & Hret & Hall)]; [by exists []|].
destruct (execute_search_outcome w arg) as (rs & Hrs & _).
exists (rs :: rss). split; [|by constructor].
unfold returns in *. cbn [fmap list_fmap run_tasks run_task].
rewrite bind_outcome, Hrs, bind_outcome. cbn [fmap] in Hret.
by rewrite Hret.
Qed.

End round_results.

(** ** One search: logs and malformed provider results *)

Section one_search_more.
Import State WebSearch Notions SearchNotions.
Implicit Types (w : World) (results : list hit) (q : str).
#[local] Opaque lit clean_text.

Lemma fetch_result_value w q t u sn acc :
fetch_result w q t u sn acc
= (fetch_warning w u,
   Returned (acc ++ [mkSearchResult q t u sn (fetched_content w u)])).
Proof.
unfold fetch_result, fetch_warning, fetched_content. py_unfold.
by destruct (load_page w u page_timeout) as [[|page docs]|e].
Qed.

Lemma for_result_in_value w q results acc :
Forall well_formed results →
for_result_in w q results acc
= (fetch_warnings w results, Returned (acc ++ (entry w q <$> results))).
Proof.
intros Hwf. revert acc.
induction Hwf as [|h results [[u Hu] [t Ht]] _ IH]; intros acc.
- cbn. by rewrite app_nil_r.
- cbn [for_result_in]. rewrite Hu, Ht. unfold subscript, ret.
  rewrite !bind_returned. cbn [fst snd app].
  rewrite fetch_result_value, bind_returned, IH. cbn [fst snd].
  unfold fetch_warnings, entry. cbn [fmap list_fmap concat].
  rewrite Hu, Ht. cbn [default from_option id]. by rewrite <- app_assoc.
Qed.

(** The exception of a loop over provider results is the missing key. *)
Lemma for_result_in_raised w q results acc l e :
for_result_in w q results acc = (l, Raised e) →
e = KeyError "link" ∨ e = KeyError "title".
Proof.
revert acc l. induction results as [|h results IH]; intros acc l; [done|].
cbn [for_result_in]. destruct h as [[u|] [t|] sn]; cbn [hit_link hit_title].
- unfold subscript, ret. rewrite !bind_returned. cbn [fst snd app].
  rewrite fetch_result_value, bind_returned. cbn [fst snd].
  destruct (for_result_in w q results _) as [l' o] eqn:Hrest.
  cbn [fst snd]. intros [= _ ->]. by eapply IH.
- unfold subscript, ret, raise. rewrite bind_returned, bind_raised.
  cbn. intros [= _ <-]. by right.
- unfold subscript, raise. rewrite bind_raised. intros [= _ <-]. by left.
- unfold subscript, raise. rewrite bind_raised. intros [= _ <-]. by left.
Qed.

(** X5.  What a search logs when every provider result has its link and
    title: one warning for each result whose page could not be loaded, in
    order, and nothing else; so there are as many warnings as entries
    without content. *)
Theorem execute_search_warnings w q results :
q ≠ [] →
google_results w q 2 = Returned results →
Forall well_formed results →
execute_search w (mkSend (Some q))
= (fetch_warnings w results,
   Returned (search_results_update (entry w q <$> results)))
∧ length (fetch_warnings w results)
  = length (filter (λ r, content r = None) (entry w q <$> results)).
Proof.
intros Hq Hg Hwf. split.
- unfold execute_search. cbn [arg_query default from_option id].
  destruct q as [|c q']; [done|]. cbn [truthy negb].
  unfold call, num_results. rewrite Hg.
  destruct results as [|h results]; [done|].
  unfold try_except. rewrite bind_returned. cbn [truthy negb app].
  rewrite for_result_in_value by done. rewrite bind_returned.
  unfold ret. cbn [fst snd app]. by rewrite app_nil_r.
- clear. induction results as [|h results IH]; [done|].
  unfold fetch_warnings in *. cbn [fmap list_fmap concat].
  rewrite length_app, IH.
  assert (content (entry w q h)
          = fetched_content w (default [] (hit_link h))) as Hc by done.
  unfold fetch_warning. unfold fetched_content in Hc.
  destruct (load_page w _ page_timeout) as [[|page docs]|e].
  + by rewrite filter_cons_True.
  + by rewrite filter_cons_False by (by rewrite Hc).
  + by rewrite filter_cons_True.
Qed.

Lemma execute_search_warnings_witness :
(execute_search Samples.world (mkSend (Some (lit "q1")))).1
= [Log WARNING (lit "execute_searchでWebページ取得エラー: ")].
Proof.
destruct (execute_search_warnings Samples.world (lit "q1")
            [Samples.hit1; Samples.hit2]) as [Hlog _].
- by vm_compute.
- by vm_compute.
- repeat constructor; by eexists.
- rewrite Hlog. by vm_compute.
Defined.

(** X6.  When the provider returns results of which one lacks its link
    or title, the search stores nothing, not even the results handled
    before that one: it returns an empty update, its last log the error
    of the missing key. *)
Theorem execute_search_malformed_result w q results :
q ≠ [] →
google_results w q 2 = Returned results →
¬ Forall well_formed results →
∃ l e,
  (e = KeyError "link" ∨ e = KeyError "title")
  ∧ execute_search w (mkSend (Some q))
    = (l ++ [Log ERROR (lit "execute_searchでエラーが発生しました: "
                        ++ exn_str e)],
       Returned (search_results_update [])).
Proof.
intros Hq Hg Hwf.
unfold execute_search. cbn [arg_query default from_option id].
destruct q as [|c q']; [done|]. cbn [truthy negb].
unfold call, num_results. rewrite Hg.
destruct results as [|h results]; [by destruct Hwf|].
unfold try_except. rewrite bind_returned. cbn [truthy negb app].
destruct (for_result_in w (c :: q') (h :: results) []) as [l o] eqn:Hloop.
destruct (for_result_in_outcome w (c :: q') (h :: results) [])
  as [[? _]|[_ [e He]]]; [done|].
rewrite Hloop in He. cbn in He. subst o.
exists l, e. split; [by eapply for_result_in_raised|].
rewrite bind_raised. unfold logger, ret. cbn [fst snd].
by rewrite bind_returned.
Qed.

Lemma execute_search_malformed_result_witness :
let w := mkWorld (λ _, []) (λ _, Raised Samples.provider_error)
           (λ _, Raised Samples.provider_error)
           (λ _, Raised Samples.provider_error)
           (λ _ _, Returned [Samples.hit1; mkHit None None None])
           (λ _ _, Raised Samples.timeout_error) in
returns (execute_search w (mkSend (Some (lit "q")))) (search_results_update []).
Proof.
intros w.
destruct (execute_search_malformed_result w (lit "q")
            [Samples.hit1; mkHit None None None]) as (l & e & _ & Heq).
- by vm_compute.
- done.
- intros Hwf. apply Forall_cons in Hwf as [_ Hwf].
  apply Forall_cons in Hwf as [[[? Hlink] _] _]. discriminate Hlink.
- unfold returns. by rewrite Heq.
Defined.

(** X7.  Whatever the provider and the loader do, a search returns an
    update whose entries all carry the query searched for and a content
    of at most 2500 characters, if any; and without a query (absent or
    empty) the update is empty. *)
Theorem execute_search_entries w arg :
∃ rs,
  returns (execute_search w arg) (search_results_update rs)
  ∧ Forall (λ r, query r = default [] (arg_query arg)
                 ∧ ∀ c, content r = Some c → (length c ≤ 2500)%nat) rs
  ∧ (default [] (arg_query arg) = [] → rs = []).
Proof.
destruct (execute_search_outcome w arg)
  as (rs & Hret & [->|(results & Hg & Hwf & ->)]).
- exists []. split_and!; done.
- eexists. split; [exact Hret|]. split.
  + apply Forall_fmap, Forall_forall. intros h _. split; [done|].
    unfold entry, fetched_content, content_limit. cbn [content].
    destruct (load_page w _ page_timeout) as [[|p ds]|e]; try done.
    intros c [= <-]. rewrite length_take. lia.
  + intros Hq. revert Hret. unfold execute_search, returns. rewrite Hq.
    cbn [truthy negb ret snd]. unfold search_results_update.
    intros [= Heq]. by rewrite <- Heq.
Qed.

End one_search_more.

(** ** What a sub-task keeps and what it hands back *)

Section subtask_record.
Import State WebSearch Notions RunNotions.
Implicit Types (w : World) (s : WebSearchState) (ts : list task).
#[local] Opaque lit.

Lemma returns_unique {X} (m : py X) (a b : X) :
returns m a → returns m b → a = b.
Proof. unfold returns. intros -> [=]. done. Qed.

Lemma returns_not_raises {X} (m : py X) (a : X) :
returns m a → ¬ raises m.
Proof. unfold returns, raises. intros -> [e [=]]. Qed.

Lemma superstep_single_inv w s t s' ts' :
returns (superstep w s [t]) (s', ts') →
∃ c, returns (run_task w s t) c
     ∧ s' = apply_update s (update c) ∧ ts' = next_tasks [c].
Proof.
unfold returns, superstep. cbn [run_tasks]. rewrite !bind_outcome.
destruct (run_task w s t) as [l [c|e]]; cbn [snd ret]; [|done].
intros [= <- <-]. by exists c.
Qed.

Lemma generate_search_queries_inv w s c :
returns (generate_search_queries w s) c →
c = placeholder_command ∨ ∃ qs, qs ≠ [] ∧ c = queries_command qs.
Proof.
unfold generate_search_queries, returns.
rewrite try_except_outcome, bind_outcome. unfold call. cbn [snd].
destruct (llm_queries w _) as [[qs why]|e]; cbn [queries].
- destruct qs as [|q qs]; cbn [truthy negb].
  + unfold logger, ret. rewrite bind_returned. cbn [snd].
    intros [= <-]. by left.
  + unfold ret. cbn [snd]. intros [= <-]. right. by exists (q :: qs).
- unfold logger, raise. by rewrite bind_returned.
Qed.

Lemma generate_task_result_inv w s c :
returns (generate_task_result w s) c → ∃ answer, c = draft_command answer.
Proof.
unfold generate_task_result, returns.
rewrite try_except_outcome, bind_outcome. unfold call. cbn [snd].
destruct (llm_text w _) as [r|e].
- unfold ret. cbn [snd]. intros [= <-]. by exists r.
- unfold logger, raise. by rewrite bind_returned.
Qed.

Lemma evaluate_task_result_inv w s c :
returns (evaluate_task_result w s) c →
c = completion s
∨ ∃ ev, c = rework s ev (Some []) n_generate_search_queries
        ∨ c = rework s ev None n_generate_task_result.
Proof.
intros Hc.
destruct (llm_evaluation w (evaluation_messages w s)) as [ev|e] eqn:Hreply.
- destruct (evaluate_task_result_outcome w s ev Hreply)
    as [Hret|[[_ Hret]|[_ Hret]]];
    rewrite (returns_unique _ _ _ Hc Hret); eauto.
- by destruct (returns_not_raises _ _ Hc
                 (evaluate_task_result_raises w s e Hreply)).
Qed.

Lemma search_updates_keep s (rss : list (list SearchResult)) :
let s' := foldl apply_update s (update <$> (search_results_update <$> rss)) in
s_task_id s' = s_task_id s
∧ s_task_description s' = s_task_description s
∧ s_search_queries s' = s_search_queries s
∧ s_tasks s' = s_tasks s
∧ s_completed s' = s_completed s
∧ s_task_result s' = s_task_result s.
Proof.
revert s. induction rss as [|rs rss IH]; intros s; [done|].
cbn [fmap list_fmap foldl]. cbn zeta in IH |- *.
destruct (IH (apply_update s (update (search_results_update rs))))
  as (-> & -> & -> & -> & -> & ->). done.
Qed.

(** One step of a regular run keeps what [kept] says. *)
Lemma superstep_kept w s0 s ts n s' ts' :
on_track s ts n → ts ≠ [] →
kept s0 s ts →
returns (superstep w s ts) (s', ts') →
kept s0 s' ts'.
Proof.
intros Hon Hne (Hid & Hdesc & Hq & Hrun & Hdraft & _) Hret.
destruct (Hrun Hne) as [Htasks Hflag].
destruct Hon as [s1 ts1 n1 Hst _|]; [|done].
destruct Hst as [| |sends Hsends|].
- (* evaluation *)
  apply superstep_single_inv in Hret as (c & Hc & -> & ->).
  rewrite next_tasks_single.
  destruct (Hdraft (or_introl eq_refl)) as [r Hr].
  apply evaluate_task_result_inv in Hc as [->|[ev [->| ->]]];
    cbn [goto_ completion rework]; unfold kept; split_and!; try done.
  intros _. split; [|done]. cbn. by rewrite Htasks.
- (* result generation *)
  apply superstep_single_inv in Hret as (c & Hc & -> & ->).
  rewrite next_tasks_single.
  apply generate_task_result_inv in Hc as [answer ->].
  cbn [goto_ draft_command]. unfold kept. by split_and!.
- (* the searches *)
  destruct (run_tasks_searches w s1 sends) as (rss & Hrss & Hlen).
  assert (rss ≠ []) as Hne'
    by (intros ->; destruct sends; [done|discriminate]).
  assert (returns (superstep w s1 (Push <$> sends))
            (foldl apply_update s1
               (update <$> (search_results_update <$> rss)),
             [Run n_generate_task_result])) as Hstep.
  { unfold returns, superstep in *. rewrite bind_outcome, Hrss.
    cbn [ret snd]. by rewrite next_tasks_searches. }
  pose proof (returns_unique _ _ _ Hret Hstep) as [= -> ->].
  destruct (search_updates_keep s1 rss) as (Ei & Ed & Eq & Et & Ec & Er).
  cbn zeta in *. unfold kept. rewrite Ei, Ed, Eq, Et, Ec.
  split_and!; try done. by intros [[=]|[=]].
- (* query generation *)
  apply superstep_single_inv in Hret as (c & Hc & -> & ->).
  rewrite next_tasks_single.
  apply generate_search_queries_inv in Hc as [->|(qs & Hqs & ->)];
    cbn [goto_ placeholder_command queries_command]; unfold kept.
  + by split_and!.
  + destruct qs as [|q qs]; [done|]. split_and!; try done.
    * cbn. etrans; [exact Hq|]. by apply prefix_app_r.
    * by intros [[=]|[=]].
Qed.

Lemma superstep_on_track w s ts n s' ts' :
on_track s ts n → ts ≠ [] →
returns (superstep w s ts) (s', ts') →
∃ n', on_track s' ts' n' ∧ (n' < n)%nat.
Proof.
intros Hon Hne Hret.
destruct (superstep_progress w s ts n Hon Hne)
  as [[Hraise _]|(s1 & ts1 & n1 & Hret1 & Hon1 & Hlt & _)].
- by destruct (returns_not_raises _ _ Hret).
- pose proof (returns_unique _ _ _ Hret Hret1) as [= -> ->]. eauto.
Qed.

Lemma kept_start s0 : kept s0 s0 start.
Proof. unfold kept, start. split_and!; try done. by intros [[=]|[=]]. Qed.

Lemma run_kept (w : nat → World) s0 fuel k s ts n sf :
on_track s ts n → kept s0 s ts →
returns (run fuel w k s ts) (Some sf) →
kept s0 sf [].
Proof.
revert k s ts n. induction fuel as [|fuel IH]; intros k s ts n Hon Hkept.
- destruct ts; cbn; unfold returns; cbn; [by intros [= <-]|done].
- destruct ts as [|t ts]; [unfold returns; cbn; by intros [= <-]|].
  cbn [run]. unfold returns. rewrite bind_outcome.
  destruct (superstep (w k) s (t :: ts)) as [l [[s' ts']|e]] eqn:Hstep;
    cbn [snd]; [|done].
  assert (returns (superstep (w k) s (t :: ts)) (s', ts')) as Hret
    by (unfold returns; by rewrite Hstep).
  destruct (superstep_on_track _ _ _ _ _ _ Hon ltac:(done) Hret)
    as (n' & Hon' & _).
  apply (IH (S k) s' ts' n' Hon').
  by apply (superstep_kept (w k) s0 s (t :: ts) n s' ts').
Qed.

Lemma visits_kept (w : nat → World) s0 k e s ts :
attempt_of s0 = 0 → visits w s0 k e s ts → kept s0 s ts.
Proof.
intros H0. induction 1 as [|k e s ts s' ts' Hv IH Hne Hret];
  [apply kept_start|].
destruct (visits_on_track w s0 k e s ts H0 Hv) as (n & Hon & _).
by apply (superstep_kept (w k) s0 s ts n s' ts').
Qed.

Lemma on_track_start s0 : attempt_of s0 = 0 → on_track s0 start 8.
Proof.
intros H0.
replace 8%nat with (4 + 4 * Z.to_nat (1 - attempt_of s0))%nat
  by (rewrite H0; vm_compute; lia).
apply on_track_running; [constructor|lia].
Qed.

(** X8.  In every configuration of the run of a sub-task that started
    with the counter at 0: the id and the description are those it
    started with; the queries it started with are a prefix of its query
    history; while tasks remain, its task list and completion flag are as
    at the start; and an evaluation always finds a draft to evaluate. *)
Theorem subtask_keeps (w : nat → World) s0 k e s ts :
attempt_of s0 = 0 →
visits w s0 k e s ts →
s_task_id s = s_task_id s0
∧ s_task_description s = s_task_description s0
∧ s_search_queries s0 `prefix_of` s_search_queries s
∧ (ts ≠ [] → s_tasks s = s_tasks s0 ∧ s_completed s = s_completed s0)
∧ (ts = [Run n_evaluate_task_result] → is_Some (s_task_result s)).
Proof.
intros H0 Hv.
destruct (visits_kept w s0 k e s ts H0 Hv) as (? & ? & ? & ? & Hdraft & _).
split_and!; try done. intros ->. apply Hdraft. by left.
Qed.

Lemma subtask_keeps_witness :
∃ s ts,
  visits (λ _, Samples.world) Samples.subtask 1 0 s ts
  ∧ s_task_id s = Some (lit "0")
  ∧ s_tasks s = [].
Proof.
assert (∃ s ts, returns (superstep Samples.world Samples.subtask start) (s, ts))
  as (s & ts & Hstep) by (eexists _, _; by vm_compute).
assert (visits (λ _, Samples.world) Samples.subtask 1 0 s ts) as Hv.
{ apply (visits_step (λ _, Samples.world) Samples.subtask 0 0
           Samples.subtask start s ts); [constructor|done|exact Hstep]. }
assert (ts ≠ []) as Hts.
{ revert Hstep. unfold returns. vm_compute. by intros [= <- <-]. }
destruct (subtask_keeps (λ _, Samples.world) Samples.subtask 1 0 s ts)
  as (Hid & _ & _ & Hrun & _); [by vm_compute|exact Hv|].
exists s, ts. split; [done|]. split; [by rewrite Hid|].
by destruct (Hrun Hts) as [-> _].
Defined.

(** X9.  A sub-task that started with the counter at 0 and ran to its
    end holds a draft and hands back its starting task list updated by
    one record: its own id and description with that draft as result;
    and it is marked complete.  Started from the dict of a [Send], the
    list it hands back is that one record. *)
Theorem subtask_hands_back (w : nat → World) fuel s0 s :
attempt_of s0 = 0 →
returns (run fuel w 0 s0 start) (Some s) →
∃ r,
  s_task_result s = Some r
  ∧ s_completed s = Some true
  ∧ s_tasks s
    = update_task (s_tasks s0)
        [mkTask (default [] (s_task_id s0))
                (default [] (s_task_description s0)) (Some r)]
  ∧ (s_tasks s0 = [] →
     s_tasks s = [mkTask (default [] (s_task_id s0))
                         (default [] (s_task_description s0)) (Some r)]).
Proof.
intros H0 Hrun.
destruct (run_kept w s0 fuel 0 s0 start 8 s (on_track_start s0 H0)
            (kept_start s0) Hrun) as (Hid & Hdesc & _ & _ & Hdraft & Hend).
destruct (Hdraft (or_intror eq_refl)) as [r Hr].
destruct (Hend eq_refl) as [Htasks Hflag].
exists r. unfold published in Htasks. rewrite Hid, Hdesc, Hr in Htasks.
split_and!; try done. intros Hnil. by rewrite Htasks, Hnil.
Qed.

Lemma subtask_hands_back_witness :
∃ s r,
  returns (run 8 (λ _, Samples.world) 0 Samples.subtask start) (Some s)
  ∧ s_tasks s = [mkTask (lit "0") (lit "weather in A") (Some r)].
Proof.
assert (∃ s, returns (run 8 (λ _, Samples.world) 0 Samples.subtask start)
                     (Some s)) as [s Hs] by (eexists; by vm_compute).
destruct (subtask_hands_back (λ _, Samples.world) 8 Samples.subtask s)
  as (r & _ & _ & _ & Hone); [by vm_compute|exact Hs|].
exists s, r. split; [done|]. by apply Hone.
Defined.

End subtask_record.

(** ** When planning and synthesis raise *)

Section planner_errors.
Import State Planner PlannerNotions.
Implicit Types (w : World) (state : BaseState).
#[local] Opaque lit.

(** The value of [plan_tasks] on a plan with tasks. *)
Lemma plan_tasks_value w state msgs plan :
bs_messages state = Some msgs →
llm_plan w (plan_messages w msgs) = Returned plan →
tasks plan ≠ [] →
plan_tasks w state
= ([], Returned (mkCommand
                   {| u_tasks := Some (imap initial_task (tasks plan));
                      u_messages := None; u_final_answer := None |}
                   (Sends (imap dispatch (tasks plan))))).
Proof.
intros Hmsgs Hplan Hne. unfold plan_messages in Hplan.
unfold plan_tasks. rewrite Hmsgs. py_unfold. cbn [app] in Hplan.
cbn. rewrite Hplan. by destruct (tasks plan).
Qed.

(** When [plan_tasks] raises, and what it logs last. *)
Lemma plan_tasks_raises_cases w state :
(raises (plan_tasks w state) ↔
   bs_messages state = None
   ∨ ∃ msgs, bs_messages state = Some msgs
       ∧ ((∃ e, llm_plan w (plan_messages w msgs) = Raised e)
          ∨ ∃ plan, llm_plan w (plan_messages w msgs) = Returned plan
                    ∧ tasks plan = []))
∧ (∀ l e, plan_tasks w state = (l, Raised e) →
     last l = Some (Log ERROR (lit "plan_tasksでエラーが発生しました: "
                               ++ exn_str e))).
Proof.
unfold raises, plan_messages, plan_tasks. py_unfold.
destruct (bs_messages state) as [msgs|]; cbn.
- destruct (llm_plan w _) as [plan|e] eqn:Hplan; cbn.
  + destruct (tasks plan) as [|t ts] eqn:Hts; cbn.
    * split; [|by intros l e [= <- <-]].
      split; [|by eauto]. intros _. right. exists msgs. split; [done|].
      right. by exists plan.
    * split; [|done]. split; [by intros [e [=]]|].
      intros [[=]|(msgs' & [= <-] & [[e He]|(plan' & Hp & Hnil)])];
        [congruence|].
      rewrite Hp in Hplan. injection Hplan as ->. congruence.
  + split; [|by intros l e' [= <- <-]].
    split; [|by eauto]. intros _. right. exists msgs. split; [done|].
    left. by exists e.
- split; [|by intros l e [= <- <-]]. split; [by left|by eauto].
Qed.

(** X10.  [plan_tasks] raises exactly when the state has no message
    history, or the model call raises, or the plan holds no task; in
    every such case its last log is the error with the text of the
    exception it raises. *)
Theorem plan_tasks_raises_iff w state :
(raises (plan_tasks w state) ↔
   bs_messages state = None
   ∨ ∃ msgs, bs_messages state = Some msgs
       ∧ ((∃ e, llm_plan w (plan_messages w msgs) = Raised e)
          ∨ ∃ plan, llm_plan w (plan_messages w msgs) = Returned plan
                    ∧ tasks plan = []))
∧ (∀ l e, plan_tasks w state = (l, Raised e) →
     last l = Some (Log ERROR (lit "plan_tasksでエラーが発生しました: "
                               ++ exn_str e))).
Proof. apply plan_tasks_raises_cases. Qed.

(** The value of the texts loop on a list with a task without result. *)
Lemma task_result_texts_missing idx (tasks : list Task) :
(∃ t, t ∈ tasks ∧ task_result t = None) →
task_result_texts idx tasks = ([], Raised (KeyError "task_result")).
Proof.
revert idx. induction tasks as [|t tasks IH]; intros idx.
- by intros (t & Ht%elem_of_nil & _).
- intros Hex. cbn [task_result_texts].
  destruct (task_result t) as [r|] eqn:Hr; [|done].
  rewrite IH; [done|].
  destruct Hex as (u & [->|Hu]%elem_of_cons & Hnone); [congruence|eauto].
Qed.

(** The value of [generate_final_answer] when the model replies. *)
Lemma generate_final_answer_value w state (tasks : list Task) m msgs reply :
bs_tasks state = Some tasks →
tasks ≠ [] →
(∀ t, t ∈ tasks → is_Some (task_result t)) →
bs_messages state = Some (m :: msgs) →
llm_text w (final_answer_messages w (msg_content m) tasks) = Returned reply →
generate_final_answer w state
= ([], Returned (mkCommand
                   {| u_tasks := None; u_messages := Some [AIMessage reply];
                      u_final_answer := Some reply |}
                   END)).
Proof.
intros Htasks Hne Hall Hmsgs Hreply.
unfold generate_final_answer. rewrite Htasks, Hmsgs.
cbn [default from_option id].
destruct tasks as [|t ts] eqn:Hts; [done|]. cbn [truthy negb].
rewrite <- Hts in *. rewrite task_result_texts_returns by done.
unfold final_answer_messages in Hreply. py_unfold. cbn [app Nat.add].
by rewrite Hreply.
Qed.

(** X11.  A non-empty task list that holds a task without result makes
    [generate_final_answer] raise the KeyError of the missing key,
    whatever the messages and the model: nothing is logged and the model
    is not asked. *)
Theorem generate_final_answer_missing_key w state (tasks : list Task) t :
bs_tasks state = Some tasks →
t ∈ tasks →
task_result t = None →
generate_final_answer w state = ([], Raised (KeyError "task_result")).
Proof.
intros Htasks Ht Hnone. unfold generate_final_answer. rewrite Htasks.
cbn [default from_option id].
destruct tasks as [|u us] eqn:Hts; [by apply elem_of_nil in Ht|].
cbn [truthy negb]. rewrite <- Hts in *.
rewrite task_result_texts_missing by eauto. done.
Qed.

Lemma generate_final_answer_missing_key_witness :
generate_final_answer Samples.planner_world
  (mkBaseState (Some Samples.question)
     (Some [mkTask (lit "0") (lit "weather in A") (Some (lit "sunny"));
            mkTask (lit "1") (lit "weather in B") None]) None)
= ([], Raised (KeyError "task_result")).
Proof.
apply (generate_final_answer_missing_key Samples.planner_world _
         [mkTask (lit "0") (lit "weather in A") (Some (lit "sunny"));
          mkTask (lit "1") (lit "weather in B") None]
         (mkTask (lit "1") (lit "weather in B") None)).
- done.
- right. left.
- done.
Defined.

(** X12.  With a non-empty task list in which every task has a result,
    [generate_final_answer] raises exactly when the message history is
    absent or empty, or the model call raises; a failed model call is
    logged and re-raised as it is. *)
Theorem generate_final_answer_raises_iff w state (tasks : list Task) :
bs_tasks state = Some tasks →
tasks ≠ [] →
(∀ t, t ∈ tasks → is_Some (task_result t)) →
(raises (generate_final_answer w state) ↔
   default [] (bs_messages state) = []
   ∨ ∃ m msgs e,
       bs_messages state = Some (m :: msgs)
       ∧ llm_text w (final_answer_messages w (msg_content m) tasks) = Raised e)
∧ (∀ m msgs e,
     bs_messages state = Some (m :: msgs) →
     llm_text w (final_answer_messages w (msg_content m) tasks) = Raised e →
     generate_final_answer w state
     = ([Log ERROR (lit "generate_final_answerでエラーが発生しました: "
                    ++ exn_str e)],
        Raised e)).
Proof.
intros Htasks Hne Hall.
assert (∀ m msgs e,
     bs_messages state = Some (m :: msgs) →
     llm_text w (final_answer_messages w (msg_content m) tasks) = Raised e →
     generate_final_answer w state
     = ([Log ERROR (lit "generate_final_answerでエラーが発生しました: "
                    ++ exn_str e)],
        Raised e)) as Hfail.
{ intros m msgs e Hmsgs Hreply.
  unfold generate_final_answer. rewrite Htasks, Hmsgs.
  cbn [default from_option id].
  destruct tasks as [|t ts] eqn:Hts; [done|]. cbn [truthy negb].
  rewrite <- Hts in *. rewrite task_result_texts_returns by done.
  unfold final_answer_messages in Hreply. py_unfold. cbn [app Nat.add].
  by rewrite Hreply. }
split; [|exact Hfail]. split.
- intros Hraise.
  destruct (bs_messages state) as [[|m msgs]|] eqn:Hmsgs; [by left| |by left].
  right. exists m, msgs.
  destruct (llm_text w (final_answer_messages w (msg_content m) tasks))
    as [reply|e] eqn:Hreply; [|by exists e].
  rewrite (generate_final_answer_value w state tasks m msgs reply) in Hraise
    by done.
  by destruct Hraise as [e [=]].
- intros [Hempty|(m & msgs & e & Hmsgs & Hreply)].
  + unfold raises, generate_final_answer. rewrite Htasks, Hempty.
    cbn [default from_option id].
    destruct tasks as [|t ts] eqn:Hts; [done|]. cbn [truthy negb].
    rewrite <- Hts in *. rewrite task_result_texts_returns by done.
    py_unfold. cbn. eauto.
  + unfold raises. rewrite (Hfail m msgs e) by done. eauto.
Qed.

Lemma generate_final_answer_raises_iff_witness :
raises (generate_final_answer Samples.planner_world
          (mkBaseState None
             (Some [mkTask (lit "0") (lit "weather in A")
                      (Some (lit "sunny"))]) None)).
Proof.
destruct (generate_final_answer_raises_iff Samples.planner_world
            (mkBaseState None
               (Some [mkTask (lit "0") (lit "weather in A")
                        (Some (lit "sunny"))]) None)
            [mkTask (lit "0") (lit "weather in A") (Some (lit "sunny"))])
  as [Hiff _].
- done.
- done.
- intros t ->%list_elem_of_singleton. by eexists.
- apply Hiff. by left.
Defined.

End planner_errors.

(** ** The whole run: planning, sub-tasks, synthesis *)

Section pipeline.
Import State Planner PlannerNotions Pipeline.
Implicit Types (w : World) (state : BaseState)
  (subs : nat → nat → WebSearch.World).
#[local] Opaque lit.

Lemma attempt_of_state_of_input input :
in_attempt input = 0 → Notions.attempt_of (state_of_input input) = 0.
Proof. intros H0. unfold Notions.attempt_of, state_of_input. by cbn. Qed.

(** A sub-task whose model calls return hands back its record. *)
Lemma websearch_returns fuel (sw : nat → WebSearch.World) input :
(8 ≤ fuel)%nat →
in_attempt input = 0 →
(∀ k, Notions.answers (sw k)) →
∃ r, returns (websearch fuel sw input)
       (Some [mkTask (in_task_id input) (in_task_description input) (Some r)]).
Proof.
intros Hfuel H0 Hans.
pose proof (attempt_of_state_of_input input H0) as Hstart.
destruct (run_on_track sw fuel 0 (state_of_input input) WebSearch.start 8
            (on_track_start _ Hstart) Hfuel)
  as [[_ [j Hj]]|(s & Hret & _)]; [by destruct Hj|].
destruct (run_kept sw (state_of_input input) fuel 0 (state_of_input input)
            WebSearch.start 8 s (on_track_start _ Hstart) (kept_start _) Hret)
  as (Hid & Hdesc & _ & _ & Hdraft & Hend).
destruct (Hdraft (or_intror eq_refl)) as [r Hr].
destruct (Hend eq_refl) as [Htasks _].
exists r. unfold websearch, returns in *. rewrite bind_outcome, Hret.
cbn [ret snd fmap option_fmap option_map]. rewrite Htasks.
unfold Notions.published. by rewrite Hid, Hdesc, Hr.
Qed.

(** With enough fuel a sub-task never stops half-way. *)
Lemma websearch_not_none fuel (sw : nat → WebSearch.World) input :
(8 ≤ fuel)%nat →
in_attempt input = 0 →
¬ returns (websearch fuel sw input) None.
Proof.
intros Hfuel H0.
pose proof (attempt_of_state_of_input input H0) as Hstart.
unfold websearch, returns. rewrite bind_outcome.
destruct (run_on_track sw fuel 0 (state_of_input input) WebSearch.start 8
            (on_track_start _ Hstart) Hfuel)
  as [[[e He] _]|(s & Hret & _)].
- by rewrite He.
- unfold returns in Hret. by rewrite Hret.
Qed.

Lemma fan_out_returns fuel subs idx (inputs : list SubtaskInput) :
(8 ≤ fuel)%nat →
Forall (λ input, in_attempt input = 0) inputs →
(∀ i k, Notions.answers (subs i k)) →
∃ results,
  returns (fan_out fuel subs idx inputs) (Some ((λ t, [t]) <$> results))
  ∧ task_id <$> results = in_task_id <$> inputs
  ∧ task_description <$> results = in_task_description <$> inputs
  ∧ Forall (λ t, is_Some (task_result t)) results.
Proof.
intros Hfuel Hall Hans. revert idx.
induction Hall as [|input inputs H0 _ IH]; intros idx; [by exists []|].
destruct (websearch_returns fuel (subs idx) input Hfuel H0 (Hans idx))
  as [r Hr].
destruct (IH (S idx)) as (results & Hret & Hids & Hdescs & Hres).
exists (mkTask (in_task_id input) (in_task_description input) (Some r)
        :: results).
split_and!.
- unfold returns in *. cbn [fan_out]. by rewrite bind_outcome, Hr,
    bind_outcome, Hret.
- cbn. by rewrite Hids.
- cbn. by rewrite Hdescs.
- constructor; [by eexists|done].
Qed.

Lemma fan_out_not_none fuel subs idx (inputs : list SubtaskInput) :
(8 ≤ fuel)%nat →
Forall (λ input, in_attempt input = 0) inputs →
¬ returns (fan_out fuel subs idx inputs) None.
Proof.
intros Hfuel Hall. revert idx.
induction Hall as [|input inputs H0 _ IH]; intros idx; [done|].
unfold returns. cbn [fan_out]. rewrite bind_outcome.
destruct (websearch fuel (subs idx) input) as [l [[out|]|e]] eqn:Hout;
  cbn [snd]; [| |done].
- rewrite bind_outcome.
  destruct (fan_out fuel subs (S idx) inputs) as [l' [[outs|]|e]] eqn:Houts;
    cbn [snd ret]; [done| |done].
  intros _. apply (IH (S idx)). unfold returns. by rewrite Houts.
- intros _. apply (websearch_not_none fuel (subs idx) input Hfuel H0).
  unfold returns. by rewrite Hout.
Qed.

Lemma tasks_updates_fold state (ts : list Task) (outs : list (list Task)) :
bs_tasks state = Some ts →
foldl apply_update state (tasks_update <$> outs)
= mkBaseState (bs_messages state) (Some (foldl update_task ts outs))
              (bs_final_answer state).
Proof.
revert state ts. induction outs as [|out outs IH]; intros state ts Hts.
- cbn. destruct state. cbn in Hts. by rewrite Hts.
- cbn [fmap list_fmap foldl].
  rewrite (IH _ (update_task ts out)); [done|].
  cbn. by rewrite Hts.
Qed.

(** What [plan_tasks] returns when it returns. *)
Lemma plan_tasks_inv w state c :
returns (plan_tasks w state) c →
∃ msgs plan,
  bs_messages state = Some msgs
  ∧ llm_plan w (plan_messages w msgs) = Returned plan
  ∧ tasks plan ≠ []
  ∧ c = mkCommand
          {| u_tasks := Some (imap initial_task (tasks plan));
             u_messages := None; u_final_answer := None |}
          (Sends (imap dispatch (tasks plan))).
Proof.
intros Hret.
destruct (bs_messages state) as [msgs|] eqn:Hmsgs.
- destruct (llm_plan w (plan_messages w msgs)) as [plan|e] eqn:Hplan.
  + destruct (decide (tasks plan = [])) as [Hnil|Hne].
    * destruct (returns_not_raises _ _ Hret).
      apply (plan_tasks_raises_cases w state). right. exists msgs.
      split; [done|]. right. by exists plan.
    * exists msgs, plan. split_and!; try done.
      pose proof (plan_tasks_value w state msgs plan Hmsgs Hplan Hne) as Hv.
      unfold returns in Hret. rewrite Hv in Hret. by injection Hret as <-.
  + destruct (returns_not_raises _ _ Hret).
    apply (plan_tasks_raises_cases w state). right. exists msgs.
    split; [done|]. left. by exists e.
- destruct (returns_not_raises _ _ Hret).
  apply (plan_tasks_raises_cases w state). by left.
Qed.

Lemma ids_initial_tasks (l : list PlanTask) :
ids (imap initial_task l) = str_of_nat <$> seq 0 (length l).
Proof. unfold ids. rewrite fmap_imap. apply (imap_seq_0 l str_of_nat). Qed.

Lemma descriptions_initial_tasks (l : list PlanTask) :
task_description <$> imap initial_task l = plan_task_description <$> l.
Proof. rewrite fmap_imap. apply (imap_const plan_task_description). Qed.

Lemma ids_dispatch (l : list PlanTask) :
in_task_id <$> (send_arg <$> imap dispatch l)
= str_of_nat <$> seq 0 (length l).
Proof. rewrite !fmap_imap. apply (imap_seq_0 l str_of_nat). Qed.

Lemma descriptions_dispatch (l : list PlanTask) :
in_task_description <$> (send_arg <$> imap dispatch l)
= plan_task_description <$> l.
Proof. rewrite !fmap_imap. apply (imap_const plan_task_description). Qed.

Lemma attempts_dispatch (l : list PlanTask) :
Forall (λ input, in_attempt input = 0) (send_arg <$> imap dispatch l).
Proof.
apply Forall_fmap, Forall_forall.
by intros x (i & t & -> & _)%elem_of_lookup_imap.
Qed.

Lemma NoDup_ids_initial_tasks (l : list PlanTask) :
NoDup (ids (imap initial_task l)).
Proof.
rewrite ids_initial_tasks.
apply (@NoDup_fmap_2 _ _ str_of_nat str_of_nat_inj), NoDup_seq.
Qed.

Lemma fan_in_start (existing results : list Task) :
NoDup (ids existing) →
ids results = ids existing →
foldl update_task existing ((λ t, [t]) <$> results) = results.
Proof.
intros Hnd Hids.
pose proof (fan_in_general [] existing results) as Hgen.
rewrite !app_nil_r in Hgen. by apply Hgen.
Qed.

(** What the graph does after a plan with tasks was made. *)
Lemma create_graph_after_plan fuel w subs state msgs plan :
bs_messages state = Some msgs →
llm_plan w (plan_messages w msgs) = Returned plan →
tasks plan ≠ [] →
(create_graph fuel w subs state).2
= (let state1 :=
     apply_update state
       {| u_tasks := Some (imap initial_task (tasks plan));
          u_messages := None; u_final_answer := None |} in
   let* outs :=
     fan_out fuel subs 0 (send_arg <$> imap dispatch (tasks plan)) in
   match outs with
   | None => ret None
   | Some outs =>
     let state2 := foldl apply_update state1 (tasks_update <$> outs) in
     let* c := generate_final_answer w state2 in
     ret (Some (apply_update state2 (update c)))
   end).2.
Proof.
intros Hmsgs Hplan Hne. unfold create_graph.
rewrite (plan_tasks_value w state msgs plan Hmsgs Hplan Hne).
rewrite bind_returned. cbn [snd update goto_].
by destruct (tasks plan).
Qed.

(** The run of the whole graph when every model call returns. *)
Lemma create_graph_value fuel w subs state m msgs plan :
(8 ≤ fuel)%nat →
default [] (bs_tasks state) = [] →
bs_messages state = Some (m :: msgs) →
llm_plan w (plan_messages w (m :: msgs)) = Returned plan →
tasks plan ≠ [] →
(∀ i k, Notions.answers (subs i k)) →
(∀ ms, ∃ r, llm_text w ms = Returned r) →
∃ done_ reply,
  returns (create_graph fuel w subs state)
    (Some (mkBaseState (Some ((m :: msgs) ++ [AIMessage reply]))
                       (Some done_) (Some reply)))
  ∧ ids done_ = str_of_nat <$> seq 0 (length (tasks plan))
  ∧ task_description <$> done_ = plan_task_description <$> tasks plan
  ∧ Forall (λ t, is_Some (task_result t)) done_
  ∧ llm_text w (final_answer_messages w (msg_content m) done_)
    = Returned reply.
Proof.
intros Hfuel Hfresh Hmsgs Hplan Hne Hsubs Htext.
destruct (fan_out_returns fuel subs 0
            (send_arg <$> imap dispatch (tasks plan)) Hfuel
            (attempts_dispatch _) Hsubs)
  as (results & Hout & Hids & Hdescs & Hres).
rewrite ids_dispatch in Hids. rewrite descriptions_dispatch in Hdescs.
destruct (Htext (final_answer_messages w (msg_content m) results))
  as [reply Hreply].
exists results, reply. split_and!; try done.
unfold returns.
rewrite (create_graph_after_plan fuel w subs state (m :: msgs) plan)
  by done.
cbn zeta. rewrite bind_outcome. unfold returns in Hout. rewrite Hout.
assert (imap initial_task (tasks plan) ≠ []) as Hinit
  by (destruct (tasks plan); [done|discriminate]).
rewrite (tasks_updates_fold _ (imap initial_task (tasks plan)));
  [|cbn; by rewrite Hfresh, update_task_nonempty].
rewrite (fan_in_start (imap initial_task (tasks plan)) results);
  [|apply NoDup_ids_initial_tasks|by rewrite ids_initial_tasks].
cbn [app bs_messages bs_final_answer apply_update u_messages u_tasks
     u_final_answer from_option].
assert (results ≠ []) as Hresults.
{ intros ->. destruct (tasks plan) as [|t ts]; [done|].
  unfold ids in Hids. cbn [length seq fmap list_fmap] in Hids.
  discriminate Hids. }
rewrite (generate_final_answer_value w _ results m msgs reply);
  try done; [|by apply Forall_forall].
rewrite bind_returned. cbn. by rewrite Hmsgs.
Qed.

(** X13.  A run of the whole graph from a state with a message history
    and no tasks, with enough fuel for the sub-tasks (8 steps each), in
    which the planner returns N ≥ 1 tasks and every model call returns:
    it ends with the message history extended by the answer, the final
    answer set to the model's reply to the synthesis prompt, and a task
    list of exactly N tasks, in plan order, with the ids 0 … N-1, the
    planned descriptions, and a result each. *)
Theorem create_graph_answers fuel w subs state m msgs plan :
(8 ≤ fuel)%nat →
default [] (bs_tasks state) = [] →
bs_messages state = Some (m :: msgs) →
llm_plan w (plan_messages w (m :: msgs)) = Returned plan →
tasks plan ≠ [] →
(∀ i k, Notions.answers (subs i k)) →
(∀ ms, ∃ r, llm_text w ms = Returned r) →
∃ done_ reply,
  returns (create_graph fuel w subs state)
    (Some (mkBaseState (Some ((m :: msgs) ++ [AIMessage reply]))
                       (Some done_) (Some reply)))
  ∧ ids done_ = str_of_nat <$> seq 0 (length (tasks plan))
  ∧ task_description <$> done_ = plan_task_description <$> tasks plan
  ∧ Forall (λ t, is_Some (task_result t)) done_
  ∧ llm_text w (final_answer_messages w (msg_content m) done_)
    = Returned reply.
Proof. apply create_graph_value. Qed.

Lemma create_graph_answers_witness :
∃ done_ reply,
  returns (create_graph 8 Samples.planner_world (λ _ _, Samples.world)
             Samples.asked)
    (Some (mkBaseState (Some (Samples.question ++ [AIMessage reply]))
                       (Some done_) (Some reply)))
  ∧ length done_ = 2%nat.
Proof.
destruct (create_graph_answers 8 Samples.planner_world
            (λ _ _, Samples.world) Samples.asked
            (HumanMessage (lit "weather in A and B")) []
            (mkTaskPlan [mkPlanTask (lit "weather in A");
                         mkPlanTask (lit "weather in B")]
                        (lit "one per city")))
  as (done_ & reply & Hret & Hids & _); try done.
- intros _ _. split_and!; intros ms; eexists; reflexivity.
- intros ms. by eexists.
- exists done_, reply. split; [done|].
  apply (f_equal length) in Hids. unfold ids in Hids.
  by rewrite !length_fmap in Hids.
Defined.

(** With enough fuel the graph never stops half-way. *)
Lemma create_graph_not_none fuel w subs state :
(8 ≤ fuel)%nat → ¬ returns (create_graph fuel w subs state) None.
Proof.
intros Hfuel Hnone.
destruct (plan_tasks w state) as [l [c|e]] eqn:Hplan.
- assert (returns (plan_tasks w state) c) as Hc
    by (unfold returns; by rewrite Hplan).
  apply plan_tasks_inv in Hc as (msgs & plan & Hmsgs & Hreply & Hne & _).
  unfold returns in Hnone.
  rewrite (create_graph_after_plan fuel w subs state msgs plan) in Hnone
    by done.
  cbn zeta in Hnone. rewrite bind_outcome in Hnone.
  destruct (fan_out fuel subs 0 (send_arg <$> imap dispatch (tasks plan)))
    as [l' [[outs|]|e]] eqn:Hout; cbn [snd] in Hnone.
  + rewrite bind_outcome in Hnone.
    by destruct (generate_final_answer w _) as [l'' [c'|e]].
  + apply (fan_out_not_none fuel subs 0
             (send_arg <$> imap dispatch (tasks plan)) Hfuel
             (attempts_dispatch _)).
    unfold returns. by rewrite Hout.
  + done.
- unfold returns, create_graph in Hnone. by rewrite Hplan in Hnone.
Qed.

(** X14.  With enough fuel for the sub-tasks, [main] never raises and
    always prints one text, decided by the run of the graph on the
    question of [main]: the run ends (it does not stop half-way); when
    it returned a state that holds a final answer, the text is that
    answer followed by a newline; when it returned a state without a
    final answer, the text is the error line for the [KeyError] of the
    key; when it raised, the text is the error line for the exception
    the run raised. *)
Theorem main_prints fuel w subs :
(8 ≤ fuel)%nat →
let run :=
  create_graph fuel w subs
    (mkBaseState (Some [HumanMessage (lit "今日の東京と埼玉の天気を教えて")])
                 None None) in
(∃ text, returns (main fuel w subs) (Some text))
∧ ¬ returns run None
∧ (∀ result answer,
     returns run (Some result) →
     bs_final_answer result = Some answer →
     returns (main fuel w subs) (Some (answer ++ nl)))
∧ (∀ result,
     returns run (Some result) →
     bs_final_answer result = None →
     returns (main fuel w subs)
       (Some (nl ++ lit "エージェント実行中にエラーが発生しました: "
              ++ exn_str (KeyError "final_answer") ++ nl)))
∧ (∀ e,
     run.2 = Raised e →
     returns (main fuel w subs)
       (Some (nl ++ lit "エージェント実行中にエラーが発生しました: "
              ++ exn_str e ++ nl))).
Proof.
intros Hfuel run.
pose proof (create_graph_not_none fuel w subs
              (mkBaseState
                 (Some [HumanMessage (lit "今日の東京と埼玉の天気を教えて")])
                 None None) Hfuel) as Hsome.
fold run in Hsome.
assert (∀ result answer,
          returns run (Some result) →
          bs_final_answer result = Some answer →
          returns (main fuel w subs) (Some (answer ++ nl))) as Hanswer.
{ intros result answer Hrun Hanswer. unfold main, returns in *.
  fold run. rewrite try_except_outcome, bind_outcome, Hrun. cbn [snd].
  rewrite bind_outcome, Hanswer. by py_unfold. }
assert (∀ result,
          returns run (Some result) →
          bs_final_answer result = None →
          returns (main fuel w subs)
            (Some (nl ++ lit "エージェント実行中にエラーが発生しました: "
                   ++ exn_str (KeyError "final_answer") ++ nl))) as Hkey.
{ intros result Hrun Hnone. unfold main, returns in *.
  fold run. rewrite try_except_outcome, bind_outcome, Hrun. cbn [snd].
  rewrite bind_outcome, Hnone. by py_unfold. }
assert (∀ e,
          run.2 = Raised e →
          returns (main fuel w subs)
            (Some (nl ++ lit "エージェント実行中にエラーが発生しました: "
                   ++ exn_str e ++ nl))) as Hraised.
{ intros e Hrun. unfold main, returns in *.
  fold run. rewrite try_except_outcome, bind_outcome, Hrun. by py_unfold. }
split_and!; try done.
destruct (run.2) as [[result|]|e] eqn:Hrun.
- destruct (bs_final_answer result) as [answer|] eqn:Hfinal.
  + eexists. by apply (Hanswer result answer).
  + eexists. by apply (Hkey result).
- by destruct Hsome.
- eexists. by apply Hraised.
Qed.

Lemma main_prints_witness :
returns (main 8 Samples.planner_world (λ _ _, Samples.world))
        (Some (lit "done" ++ nl)).
Proof.
destruct (main_prints 8 Samples.planner_world (λ _ _, Samples.world))
  as (_ & _ & Hanswer & _); [lia|].
eapply Hanswer.
- unfold returns. vm_compute. reflexivity.
- vm_compute. reflexivity.
Defined.


End pipeline.

(** ** Cleaning page text: [clean_text] *)

Section cleaning.
Import WebSearch TextNotions.
Implicit Types (text x y line : str) (lines : list str).

Lemma split_newline_nonempty x : split_newline x ≠ [].
Proof.
destruct x as [|c x]; [done|]. cbn.
destruct (c =? 10)%N; [done|]. by destruct (split_newline x).
Qed.

Lemma split_newline_cons c x :
c ≠ 10%N →
∃ hd tl, split_newline x = hd :: tl
         ∧ split_newline (c :: x) = (c :: hd) :: tl.
Proof.
intros Hc. cbn. rewrite (proj2 (N.eqb_neq c 10%N) Hc).
destruct (split_newline x) as [|hd tl] eqn:Hx;
  [by destruct (split_newline_nonempty x)|eauto].
Qed.

Lemma split_newline_app x y :
split_newline (x ++ 10%N :: y) = split_newline x ++ split_newline y.
Proof.
induction x as [|c x IH]; [done|].
destruct (N.eq_dec c 10%N) as [->|Hc].
- cbn. by rewrite IH.
- destruct (split_newline_cons c x Hc) as (hd & tl & Hx & Hcx).
  rewrite Hcx. cbn [app]. cbn [split_newline].
  rewrite (proj2 (N.eqb_neq c 10%N) Hc), IH, Hx. done.
Qed.

Lemma stripped_lines_app lines lines' :
stripped_lines (lines ++ lines')
= stripped_lines lines ++ stripped_lines lines'.
Proof. unfold stripped_lines. by rewrite fmap_app, filter_app. Qed.

Lemma lstrip_whitespace x : Forall (λ c, isspace c = true) x → lstrip x = [].
Proof. induction 1 as [|c x Hc _ IH]; [done|]. cbn. by rewrite Hc. Qed.

Lemma strip_whitespace x : Forall (λ c, isspace c = true) x → strip x = [].
Proof. intros Hx. unfold strip. by rewrite (lstrip_whitespace x Hx). Qed.

Lemma stripped_lines_whitespace x :
Forall (λ c, isspace c = true) x → stripped_lines (split_newline x) = [].
Proof.
intros Hx. unfold stripped_lines. apply filter_none, Forall_fmap.
induction Hx as [|c x Hc Hx IH];
  [cbn; constructor; [by intros []|constructor]|].
destruct (N.eq_dec c 10%N) as [->|Hne].
- cbn. constructor; [by intros []|done].
- destruct (split_newline_cons c x Hne) as (hd & tl & Hsplit & ->).
  rewrite Hsplit in IH. apply Forall_cons in IH as [Hhd Htl].
  constructor; [|done]. cbn in *. intros Hkeep. apply Hhd. intros Hnil.
  apply Hkeep. unfold strip in *. cbn [lstrip]. by rewrite Hc.
Qed.

Lemma sub_blank_lines_skip k x :
sub_blank_lines k x = sub_blank_lines 0 (drop k x).
Proof.
revert k. induction x as [|c x IH]; intros [|k]; try done.
cbn [sub_blank_lines drop]. apply IH.
Qed.

Lemma whitespace_run_spec x :
Forall (λ c, isspace c = true) (whitespace_run x)
∧ ∃ tail, x = whitespace_run x ++ tail.
Proof.
induction x as [|c x [IH [tail Htail]]]; [split; [done|by exists []]|].
cbn. destruct (isspace c) eqn:Hc.
- split; [by constructor|]. exists tail. cbn. by rewrite <- Htail.
- split; [done|]. by exists (c :: x).
Qed.

Lemma upto_last_newline_spec run k :
upto_last_newline run = Some k →
∃ before, take k run = before ++ [10%N] ∧ (k ≤ length run)%nat.
Proof.
revert k. induction run as [|c run IH]; intros k; [done|].
cbn [upto_last_newline].
destruct (upto_last_newline run) as [k'|].
- intros [= <-]. destruct (IH k' eq_refl) as (before & Htake & Hle).
  exists (c :: before). cbn. rewrite Htake. split; [done|lia].
- destruct (N.eqb_spec c 10%N) as [->|]; [|done]. intros [= <-].
  exists []. split; [done|cbn; lia].
Qed.

(** What a match of the pattern after a newline passes over: white space
    that ends with a newline. *)
Lemma match_spec x k :
upto_last_newline (whitespace_run x) = Some k →
∃ before, x = before ++ 10%N :: drop k x
          ∧ Forall (λ c, isspace c = true) before
          ∧ (0 < k ≤ length x)%nat.
Proof.
intros Hk. destruct (whitespace_run_spec x) as [Hws [tail Htail]].
revert Hk Hws Htail. generalize (whitespace_run x). intros run Hk Hws ->.
destruct (upto_last_newline_spec _ _ Hk) as (before & Htake & Hle).
exists before.
assert (take k (run ++ tail) = before ++ [10%N]) as Htake'
  by (by rewrite take_app_le).
split_and!.
- rewrite <- (take_drop k (run ++ tail)) at 1.
  by rewrite Htake', <- app_assoc.
- assert (Forall (λ c, isspace c = true) (take k run)) as Hws'
    by (by apply Forall_take).
  rewrite Htake in Hws'. by apply Forall_app in Hws' as [? _].
- apply (f_equal length) in Htake. rewrite length_take, length_app in Htake.
  cbn in Htake. lia.
- rewrite length_app. lia.
Qed.

(** The substitution leaves the first line alone and changes the others
    only by empty and white-space lines. *)
Lemma sub_blank_lines_lines n x :
(length x ≤ n)%nat →
∃ hd tl tl',
  split_newline x = hd :: tl
  ∧ split_newline (sub_blank_lines 0 x) = hd :: tl'
  ∧ stripped_lines tl = stripped_lines tl'.
Proof.
revert x. induction n as [|n IH]; intros x Hn.
- destruct x; [|cbn in Hn; lia]. by exists [], [], [].
- destruct x as [|c rest]; [by exists [], [], []|]. cbn in Hn.
  destruct (N.eq_dec c 10%N) as [->|Hc].
  + cbn [sub_blank_lines]. cbn [N.eqb Pos.eqb].
    destruct (upto_last_newline (whitespace_run rest)) as [k|] eqn:Hk.
    * destruct (match_spec rest k Hk) as (before & Hrest & Hws & Hlen).
      destruct (IH (drop k rest)) as (hd & tl & tl' & Hs & Hs' & Heq).
      { rewrite length_drop. lia. }
      rewrite sub_blank_lines_skip. cbn [nl app split_newline N.eqb Pos.eqb].
      exists [], (split_newline before ++ hd :: tl), ([] :: hd :: tl').
      split_and!.
      -- rewrite Hrest at 1. by rewrite split_newline_app, Hs.
      -- by rewrite Hs'.
      -- rewrite stripped_lines_app, (stripped_lines_whitespace before Hws).
         change ([] :: hd :: tl') with ([[]] ++ [hd] ++ tl').
         change (hd :: tl) with ([hd] ++ tl).
         rewrite !stripped_lines_app. by rewrite Heq.
    * destruct (IH rest) as (hd & tl & tl' & Hs & Hs' & Heq); [lia|].
      cbn [split_newline N.eqb Pos.eqb]. rewrite Hs, Hs'.
      exists [], (hd :: tl), (hd :: tl'). split_and!; [done..|].
      change (hd :: tl') with ([hd] ++ tl').
      change (hd :: tl) with ([hd] ++ tl).
      by rewrite !stripped_lines_app, Heq.
  + destruct (IH rest) as (hd & tl & tl' & Hs & Hs' & Heq); [lia|].
    cbn [sub_blank_lines]. rewrite (proj2 (N.eqb_neq c 10%N) Hc).
    cbn [split_newline]. rewrite (proj2 (N.eqb_neq c 10%N) Hc), Hs, Hs'.
    by exists (c :: hd), tl, tl'.
Qed.

(** Cleaning is stripping the lines and dropping the empty ones. *)
Lemma clean_text_join text : clean_text text = join nl (lines_of text).
Proof.
unfold clean_text, lines_of. f_equal.
destruct (sub_blank_lines_lines (length text) text)
  as (hd & tl & tl' & Hs & Hs' & Heq); [done|].
fold (stripped_lines (split_newline (sub_blank_lines 0 text))).
rewrite Hs, Hs'.
change (hd :: tl') with ([hd] ++ tl'). change (hd :: tl) with ([hd] ++ tl).
by rewrite !stripped_lines_app, Heq.
Qed.

(** X16.  The substitution of blank lines changes nothing in the end:
    cleaning a text gives its lines, each stripped, the empty ones
    dropped, joined by newlines. *)
Theorem clean_text_lines text : clean_text text = join nl (lines_of text).
Proof. apply clean_text_join. Qed.

Lemma lstrip_spec x :
∃ ws, x = ws ++ lstrip x
      ∧ Forall (λ c, isspace c = true) ws
      ∧ ∀ c, head (lstrip x) = Some c → isspace c = false.
Proof.
induction x as [|c x (ws & Hx & Hws & Hhead)]; [by exists []|].
cbn. destruct (isspace c) eqn:Hc.
- exists (c :: ws). split_and!; [cbn; by f_equal|by constructor|done].
- exists []. split_and!; [done..|]. cbn. by intros ? [= <-].
Qed.

Lemma lstrip_fixed x :
(∀ c, head x = Some c → isspace c = false) → lstrip x = x.
Proof. destruct x as [|c x]; [done|]. cbn. intros Hc. by rewrite Hc. Qed.

(** A text is white space, its stripped form, white space; the stripped
    form has no white space at either end. *)
Lemma strip_spec x :
∃ ws1 ws2,
  x = ws1 ++ strip x ++ ws2
  ∧ Forall (λ c, isspace c = true) ws1
  ∧ Forall (λ c, isspace c = true) ws2
  ∧ (∀ c, head (strip x) = Some c → isspace c = false)
  ∧ (∀ c, last (strip x) = Some c → isspace c = false).
Proof.
unfold strip.
destruct (lstrip_spec x) as (ws1 & Hx & Hws1 & Hhead).
destruct (lstrip_spec (reverse (lstrip x))) as (ws & Hr & Hws & Hhead').
set (b := lstrip (reverse (lstrip x))) in *.
assert (lstrip x = reverse b ++ reverse ws) as Ha.
{ rewrite <- reverse_app, <- Hr. by rewrite reverse_involutive. }
exists ws1, (reverse ws). split_and!.
- by rewrite <- Ha.
- done.
- by apply Forall_reverse.
- intros c Hc. apply Hhead. rewrite Ha.
  destruct (reverse b); [done|exact Hc].
- intros c Hc. apply Hhead'. by rewrite last_reverse in Hc.
Qed.

Lemma split_newline_no_newline x :
Forall (λ line, 10%N ∉ line) (split_newline x).
Proof.
induction x as [|c x IH]; [repeat constructor; apply not_elem_of_nil|].
destruct (N.eq_dec c 10%N) as [->|Hc].
- cbn. constructor; [apply not_elem_of_nil|done].
- destruct (split_newline_cons c x Hc) as (hd & tl & Hx & ->).
  rewrite Hx in IH. apply Forall_cons in IH as [Hhd Htl].
  constructor; [|done]. apply not_elem_of_cons. split; [congruence|done].
Qed.

Lemma strip_no_newline x : 10%N ∉ x → 10%N ∉ strip x.
Proof.
intros Hx Hin. apply Hx.
destruct (strip_spec x) as (ws1 & ws2 & Heq & _).
rewrite Heq, !elem_of_app. tauto.
Qed.

Lemma clean_line_strip x : 10%N ∉ x → strip x ≠ [] → clean_line (strip x).
Proof.
intros Hx Hne. destruct (strip_spec x) as (ws1 & ws2 & _ & _ & _ & Hh & Hl).
split_and!; [done|by apply strip_no_newline|done..].
Qed.

Lemma lines_of_clean text : Forall clean_line (lines_of text).
Proof.
unfold lines_of, stripped_lines.
apply Forall_forall. intros line [Hne Hin]%list_elem_of_filter.
apply list_elem_of_fmap in Hin as (l & -> & Hl).
apply clean_line_strip; [|done].
pose proof (split_newline_no_newline text) as Hall.
rewrite Forall_forall in Hall. by apply Hall.
Qed.

Lemma strip_clean_line line : clean_line line → strip line = line.
Proof.
intros (_ & _ & Hhead & Hlast). unfold strip.
rewrite (lstrip_fixed line Hhead).
rewrite lstrip_fixed; [apply reverse_involutive|].
intros c Hc. apply Hlast. by rewrite <- head_reverse.
Qed.

Lemma split_newline_line line : 10%N ∉ line → split_newline line = [line].
Proof.
induction line as [|c line IH]; [done|].
intros [Hc Hline]%not_elem_of_cons. cbn.
rewrite (proj2 (N.eqb_neq c 10%N)) by congruence. by rewrite IH.
Qed.

Lemma split_newline_join lines :
lines ≠ [] → Forall (λ line, 10%N ∉ line) lines →
split_newline (join nl lines) = lines.
Proof.
intros Hne Hall. induction Hall as [|line lines Hline Hall IH]; [done|].
destruct lines as [|line' lines].
- cbn. by apply split_newline_line.
- change (join nl (line :: line' :: lines))
    with (line ++ 10%N :: join nl (line' :: lines)).
  rewrite split_newline_app, IH by done. by rewrite split_newline_line.
Qed.

Lemma lines_of_join lines :
Forall clean_line lines → lines_of (join nl lines) = lines.
Proof.
intros Hall. destruct (decide (lines = [])) as [->|Hne]; [done|].
unfold lines_of, stripped_lines. rewrite split_newline_join; [|done|].
- assert (strip <$> lines = lines) as ->.
  { clear Hne. induction Hall as [|l ls Hl _ IH]; [done|].
    cbn. by rewrite IH, strip_clean_line. }
  apply filter_all. eapply Forall_impl; [exact Hall|]. by intros l [? _].
- eapply Forall_impl; [exact Hall|]. by intros l (_ & ? & _).
Qed.

(** X17.  The lines of a cleaned text are clean: none is empty, none
    has white space at either end.  Splitting the cleaned text at
    newlines gives back exactly the stripped non-empty lines of the
    original, and the cleaned text is empty when there is none. *)
Theorem clean_text_clean_lines text :
Forall clean_line (lines_of text)
∧ (lines_of text ≠ [] → split_newline (clean_text text) = lines_of text)
∧ (lines_of text = [] → clean_text text = []).
Proof.
pose proof (lines_of_clean text) as Hclean. split_and!; [done| |].
- intros Hne. rewrite clean_text_join. apply split_newline_join; [done|].
  eapply Forall_impl; [exact Hclean|]. by intros l (_ & ? & _).
- intros Hnil. by rewrite clean_text_join, Hnil.
Qed.

(** X18.  Cleaning a cleaned text changes nothing. *)
Theorem clean_text_idempotent text :
clean_text (clean_text text) = clean_text text.
Proof.
rewrite (clean_text_join (clean_text text)), (clean_text_join text).
by rewrite lines_of_join by apply lines_of_clean.
Qed.

Lemma clean_text_clean_lines_witness :
split_newline (clean_text (lit " a " ++ nl ++ nl ++ lit "b"))
= [lit "a"; lit "b"].
Proof.
destruct (clean_text_clean_lines (lit " a " ++ nl ++ nl ++ lit "b"))
  as (_ & Hsplit & _).
rewrite Hsplit; by vm_compute.
Defined.

Lemma join_split_newline x : join nl (split_newline x) = x.
Proof.
induction x as [|c x IH]; [done|].
destruct (N.eq_dec c 10%N) as [->|Hc].
- cbn [split_newline N.eqb Pos.eqb].
  destruct (split_newline x) as [|hd tl] eqn:Hx;
    [by destruct (split_newline_nonempty x)|].
  change (join nl ([] :: hd :: tl)) with (10%N :: join nl (hd :: tl)).
  by rewrite IH.
- destruct (split_newline_cons c x Hc) as (hd & tl & Hx & ->).
  rewrite Hx in IH. rewrite <- IH. by destruct tl.
Qed.

Lemma length_join lines :
lines ≠ [] →
S (length (join nl lines)) = sum_list ((λ l, S (length l)) <$> lines).
Proof.
induction lines as [|l lines IH]; [done|]. intros _.
destruct lines as [|l' lines]; [cbn; unfold id; lia|].
change (join nl (l :: l' :: lines)) with (l ++ 10%N :: join nl (l' :: lines)).
rewrite length_app. cbn [length fmap list_fmap sum_list sum_list_with].
specialize (IH ltac:(done)). cbn [fmap list_fmap sum_list sum_list_with] in IH.
unfold id in *. lia.
Qed.

Lemma length_strip x : (length (strip x) ≤ length x)%nat.
Proof.
destruct (strip_spec x) as (ws1 & ws2 & Heq & _).
rewrite Heq at 2. rewrite !length_app. lia.
Qed.

Lemma size_stripped_lines lines :
(sum_list ((λ l, S (length l)) <$> stripped_lines lines)
 ≤ sum_list ((λ l, S (length l)) <$> lines))%nat.
Proof.
unfold stripped_lines. induction lines as [|l lines IH]; [done|].
cbn [fmap list_fmap]. rewrite filter_cons.
pose proof (length_strip l).
destruct (decide (strip l ≠ [])); cbn [fmap list_fmap sum_list sum_list_with];
  cbn [fmap list_fmap sum_list sum_list_with] in IH; unfold id in *; lia.
Qed.

(** X19.  Cleaning never makes a text longer. *)
Theorem clean_text_length text : (length (clean_text text) ≤ length text)%nat.
Proof.
rewrite clean_text_join.
destruct (decide (lines_of text = [])) as [->|Hne]; [cbn; lia|].
pose proof (length_join (lines_of text) Hne) as Hclean.
pose proof (length_join (split_newline text) (split_newline_nonempty text))
  as Hsplit.
rewrite join_split_newline in Hsplit.
pose proof (size_stripped_lines (split_newline text)) as Hle.
unfold lines_of in *. lia.
Qed.

Lemma strip_nil_whitespace x : strip x = [] → Forall (λ c, isspace c = true) x.
Proof.
intros Hnil. destruct (strip_spec x) as (ws1 & ws2 & Heq & H1 & H2 & _).
rewrite Heq, Hnil. by apply Forall_app.
Qed.

Lemma join_whitespace lines :
Forall (Forall (λ c, isspace c = true)) lines →
Forall (λ c, isspace c = true) (join nl lines).
Proof.
induction 1 as [|l lines Hl Hall IH]; [done|].
destruct lines as [|l' lines]; [done|].
change (join nl (l :: l' :: lines)) with (l ++ 10%N :: join nl (l' :: lines)).
apply Forall_app. split; [done|]. by constructor.
Qed.

(** X20.  The cleaned text is empty exactly when the text is white
    space only (the empty text included). *)
Theorem clean_text_empty_iff text :
clean_text text = [] ↔ Forall (λ c, isspace c = true) text.
Proof.
rewrite clean_text_join. split.
- intros Hnil.
  assert (lines_of text = []) as Hlines.
  { pose proof (lines_of_clean text) as Hclean.
    destruct (lines_of text) as [|l ls]; [done|].
    apply Forall_cons in Hclean as [[Hl _] _].
    destruct ls; [by destruct Hl|]. destruct l; [done|discriminate]. }
  rewrite <- (join_split_newline text). apply join_whitespace.
  apply Forall_forall. intros line Hline. apply strip_nil_whitespace.
  destruct (decide (strip line = [])) as [|Hne]; [done|].
  assert (strip line ∈ lines_of text) as Hin.
  { unfold lines_of, stripped_lines. apply list_elem_of_filter.
    split; [done|]. by apply list_elem_of_fmap_2. }
  rewrite Hlines in Hin. by apply elem_of_nil in Hin.
- intros Hws. unfold lines_of. by rewrite stripped_lines_whitespace.
Qed.

End cleaning.

(** ** Model failures in the sub-task nodes, and more on the task list *)

Section node_failures.
Import State WebSearch Notions RunNotions.
Implicit Types (w : World) (s : WebSearchState).
#[local] Opaque lit.

(** X21.  In each of the three nodes that ask the model, a model call
    that raises is logged once, as an error with the text of the
    exception, and the same exception is raised again; nothing else is
    logged. *)
Theorem model_failure_reraised w s e :
(llm_queries w [SystemMessage (system_prompt w n_generate_search_queries);
                HumanMessage (queries_request s)] = Raised e →
   generate_search_queries w s
   = ([Log ERROR (lit "generate_search_queriesでエラーが発生しました: "
                  ++ exn_str e)], Raised e))
∧ (llm_text w [SystemMessage (system_prompt w n_generate_task_result);
               HumanMessage (result_request s)] = Raised e →
   generate_task_result w s
   = ([Log ERROR (lit "generate_task_resultでエラーが発生しました: "
                  ++ exn_str e)], Raised e))
∧ (llm_evaluation w (evaluation_messages w s) = Raised e →
   evaluate_task_result w s
   = ([Log ERROR (lit "evaluate_task_resultでエラーが発生しました: "
                  ++ exn_str e)], Raised e)).
Proof.
split_and!; intros Hreply.
- unfold generate_search_queries. py_unfold. by rewrite Hreply.
- unfold generate_task_result. py_unfold. by rewrite Hreply.
- unfold evaluation_messages in Hreply. unfold evaluate_task_result.
  py_unfold. by rewrite Hreply.
Qed.

Lemma model_failure_reraised_witness :
let w := mkWorld (λ _, []) (λ _, Raised Samples.provider_error)
           (λ _, Raised Samples.provider_error)
           (λ _, Raised Samples.provider_error)
           (λ _ _, Raised Samples.provider_error)
           (λ _ _, Raised Samples.provider_error) in
raises (generate_search_queries w Samples.subtask)
∧ raises (generate_task_result w Samples.subtask)
∧ raises (evaluate_task_result w Samples.subtask).
Proof.
intros w.
destruct (model_failure_reraised w Samples.subtask Samples.provider_error)
  as (Hq & Ht & He).
unfold raises. rewrite Hq, Ht, He by done. split_and!; by eexists.
Defined.

(** X22.  An update whose ids are all new is appended as it is: the
    list before stays, in order, and the update follows. *)
Theorem update_task_new_ids (existing new : list Task) :
(∀ t, t ∈ existing → task_id t ∉ ids new) →
update_task existing new = existing ++ new.
Proof.
intros Hnew. destruct (decide (new = [])) as [->|Hne];
  [by rewrite app_nil_r|].
rewrite update_task_nonempty by done. f_equal.
by apply filter_all, Forall_forall.
Qed.

Lemma update_task_new_ids_witness :
update_task [mkTask (lit "0") (lit "a") None]
            [mkTask (lit "1") (lit "b") None]
= [mkTask (lit "0") (lit "a") None; mkTask (lit "1") (lit "b") None].
Proof.
apply (update_task_new_ids [mkTask (lit "0") (lit "a") None]
                           [mkTask (lit "1") (lit "b") None]).
intros t ->%list_elem_of_singleton. unfold ids. cbn.
rewrite list_elem_of_singleton. by vm_compute.
Defined.

(** X23.  A later update that names every id of an earlier one undoes
    the earlier one: the result is that of the later update alone. *)
Theorem update_task_overwritten (existing first second : list Task) :
ids first ⊆ ids second →
update_task (update_task existing first) second
= update_task existing second.
Proof.
intros Hsub.
destruct (decide (second = [])) as [->|Hs].
- destruct first as [|t first]; [done|].
  assert (task_id t ∈ ids []) as Hin by (apply Hsub; left).
  by apply elem_of_nil in Hin.
- destruct (decide (first = [])) as [->|Hf]; [done|].
  rewrite !(update_task_nonempty _ second) by done.
  rewrite update_task_nonempty by done.
  rewrite filter_app, (filter_fresh_ids second first) by done.
  rewrite app_nil_r. f_equal.
  rewrite list_filter_filter. apply list_filter_iff.
  intros t. split; [tauto|]. intros Hout. split; [done|].
  intros Hin. by apply Hout, Hsub.
Qed.

Lemma update_task_overwritten_witness :
let a := mkTask (lit "0") (lit "a") (Some (lit "old")) in
let b := mkTask (lit "0") (lit "a") (Some (lit "new")) in
update_task (update_task [mkTask (lit "0") (lit "a") None] [a]) [b] = [b].
Proof.
intros a b.
rewrite (update_task_overwritten [mkTask (lit "0") (lit "a") None] [a] [b]).
- by vm_compute.
- apply (bool_decide_unpack _). by vm_compute.
Defined.

End node_failures.

(** ** Witnesses of the planner and pipeline properties *)

Section more_witnesses.
Import State Planner PlannerNotions Pipeline.
#[local] Opaque lit.

Lemma plan_tasks_raises_iff_witness :
raises (plan_tasks Samples.planner_world (mkBaseState None None None)).
Proof.
destruct (plan_tasks_raises_iff Samples.planner_world
            (mkBaseState None None None)) as [Hiff _].
apply Hiff. by left.
Defined.


End more_witnesses.

(** ** Where the search results of a sub-task come from *)

Section result_origin.
Import State WebSearch Notions RunNotions TraceNotions.
Implicit Types (w : World) (s : WebSearchState) (ts : list task).
#[local] Opaque lit clean_text.

Lemma merge_Forall (P : SearchResult → Prop) (left right : list SearchResult) :
Forall P left → Forall P right →
Forall P (merge_search_results (Some left) (Some right)).
Proof.
intros Hl Hr. destruct right as [|r right]; [done|].
destruct left as [|l left]; [done|].
change (Forall P ((l :: left) ++ r :: right)). by apply Forall_app.
Qed.

Lemma search_updates_Forall (P : SearchResult → Prop) s
  (rss : list (list SearchResult)) :
Forall P (s_search_results s) →
Forall (Forall P) rss →
Forall P (s_search_results
            (foldl apply_update s
               (update <$> (search_results_update <$> rss)))).
Proof.
rewrite search_results_fold. generalize (s_search_results s).
intros left Hleft Hall. revert left Hleft.
induction Hall as [|rs rss Hrs _ IH]; intros left Hleft; [done|].
cbn [foldl]. apply IH. by apply merge_Forall.
Qed.

Lemma execute_search_query w arg rs :
returns (execute_search w arg) (search_results_update rs) →
Forall (λ r, query r = default [] (arg_query arg)) rs.
Proof.
intros Hret.
destruct (execute_search_outcome w arg)
  as (rs' & Hret' & [->|(results & _ & _ & ->)]);
  pose proof (returns_unique _ _ _ Hret Hret') as [= ->]; [done|].
apply Forall_fmap, Forall_forall. by intros h _.
Qed.

Lemma superstep_traced w s ts n s' ts' :
on_track s ts n → ts ≠ [] →
traced s ts →
returns (superstep w s ts) (s', ts') →
traced s' ts'.
Proof.
intros Hon Hne [Hres Hargs] Hret.
destruct Hon as [s1 ts1 n1 Hst _|]; [|done].
destruct Hst as [| |sends Hsends|].
- (* evaluation *)
  apply superstep_single_inv in Hret as (c & Hc & -> & ->).
  rewrite next_tasks_single.
  apply evaluate_task_result_inv in Hc as [->|[ev [->| ->]]];
    cbn [goto_ completion rework]; (split; [try done|]).
  all: try (intros arg Harg; apply list_elem_of_singleton in Harg; done).
  intros arg Harg. by apply elem_of_nil in Harg.
- (* result generation *)
  apply superstep_single_inv in Hret as (c & Hc & -> & ->).
  rewrite next_tasks_single.
  apply generate_task_result_inv in Hc as [answer ->].
  split; [done|]. intros arg Harg. by apply list_elem_of_singleton in Harg.
- (* the searches *)
  destruct (run_tasks_searches_entries w s1 sends) as (rss & Hrss & Hall).
  assert (rss ≠ []) as Hne'
    by (intros ->; apply Forall2_length in Hall; by destruct sends).
  assert (returns (superstep w s1 (Push <$> sends))
            (foldl apply_update s1
               (update <$> (search_results_update <$> rss)),
             [Run n_generate_task_result])) as Hstep.
  { unfold returns, superstep in *. rewrite bind_outcome, Hrss.
    cbn [ret snd]. by rewrite next_tasks_searches. }
  pose proof (returns_unique _ _ _ Hret Hstep) as [= -> ->].
  destruct (search_updates_keep s1 rss) as (_ & _ & Eq & _).
  cbn zeta in Eq. split.
  + rewrite Eq. apply search_updates_Forall; [done|].
    apply Forall_forall. intros rs Hrs.
    apply list_elem_of_lookup in Hrs as [i Hi].
    destruct (Forall2_lookup_r _ _ _ _ _ Hall Hi) as (arg & Harg & Hexec).
    destruct (Hargs arg) as (q & Hq & Hin).
    { apply list_elem_of_fmap. exists arg. split; [done|].
      by apply list_elem_of_lookup_2 in Harg. }
    apply execute_search_query in Hexec. rewrite Hq in Hexec.
    eapply Forall_impl; [exact Hexec|]. cbn. by intros r ->.
  + intros arg Harg. by apply list_elem_of_singleton in Harg.
- (* query generation *)
  apply superstep_single_inv in Hret as (c & Hc & -> & ->).
  rewrite next_tasks_single.
  apply generate_search_queries_inv in Hc as [->|(qs & Hqs & ->)];
    cbn [goto_ placeholder_command queries_command].
  + split; [done|]. intros arg Harg.
    by apply list_elem_of_singleton in Harg.
  + split.
    * cbn. eapply Forall_impl; [exact Hres|]. cbn. intros r Hr.
      apply elem_of_app. by left.
    * intros arg (a & [= ->] & Ha)%list_elem_of_fmap.
      apply list_elem_of_fmap in Ha as (q & -> & Hq).
      exists q. split; [done|]. cbn. apply elem_of_app. by right.
Qed.

(** X24.  In every configuration of the run of a sub-task that started
    with the counter at 0 and no search results: every search result in
    the state was found by one of the queries in the query history, and
    every search about to run is for a query of the history. *)
Theorem results_come_from_queries (w : nat → World) s0 k e s ts :
attempt_of s0 = 0 →
s_search_results s0 = [] →
visits w s0 k e s ts →
Forall (λ r, query r ∈ s_search_queries s) (s_search_results s)
∧ ∀ arg, Push arg ∈ ts →
    ∃ q, arg_query arg = Some q ∧ q ∈ s_search_queries s.
Proof.
intros H0 Hempty.
induction 1 as [|k e s ts s' ts' Hv IH Hne Hret].
- split; [by rewrite Hempty|].
  intros arg Harg. by apply list_elem_of_singleton in Harg.
- destruct (visits_on_track w s0 k e s ts H0 Hv) as (n & Hon & _).
  by apply (superstep_traced (w k) s ts n s' ts').
Qed.

Lemma results_come_from_queries_witness :
∃ s ts,
  visits (λ _, Samples.world) Samples.subtask 1 0 s ts
  ∧ ∀ arg, Push arg ∈ ts →
      ∃ q, arg_query arg = Some q ∧ q ∈ s_search_queries s.
Proof.
assert (∃ s ts, returns (superstep Samples.world Samples.subtask start) (s, ts))
  as (s & ts & Hstep) by (eexists _, _; by vm_compute).
assert (visits (λ _, Samples.world) Samples.subtask 1 0 s ts) as Hv.
{ apply (visits_step (λ _, Samples.world) Samples.subtask 0 0
           Samples.subtask start s ts); [constructor|done|exact Hstep]. }
destruct (results_come_from_queries (λ _, Samples.world) Samples.subtask
            1 0 s ts) as [_ Hargs]; [by vm_compute|done|exact Hv|].
by exists s, ts.
Defined.

End result_origin.

Section search_witnesses.
Import State WebSearch Notions.
#[local] Opaque lit clean_text.

Lemma execute_search_entries_witness :
returns (execute_search Samples.world (mkSend (Some [])))
        (search_results_update []).
Proof.
destruct (execute_search_entries Samples.world (mkSend (Some [])))
  as (rs & Hret & _ & Hnil).
by rewrite (Hnil eq_refl) in Hret.
Defined.

End search_witnesses.
